(** * Resumable, content-addressed downloader (util/downloader/download.go)

    A shallow embedding of [util/downloader/download.go] and of
    [terminal.Progress], with the properties the design document states
    about them.

    Conventions of the embedding:
    - Go's [int64] is a [Z] with the two's-complement wrap-around written
      out ([wrap64]); [int] is the same on the 64-bit targets.
    - a Go [string] is a [string]; a [[]byte] is a [list byte].
    - a Go [error] is the inductive [error]: [fmt.Errorf] with [%w] is
      [Wrap], any other error value is [New].
    - the host file system, the terminal, the HTTP origin and the guest
      are a [World] that every operation threads through; what the
      environment decides (an I/O fault, what the origin answers, the
      clock) is read from an [Env].
    - [d.log.Tracef] only writes to the trace log and is left out;
      [defer destFile.Close()] and [defer resp.Body.Close()] release
      resources and change nothing that is modelled; the mutex of
      [Progress] is a no-op in this sequential embedding. *)

From Stdlib Require Import ZArith Lia Ascii String List Strings.Byte.
From stdpp Require Import base gmap strings list pretty.

Local Open Scope string_scope.
Local Open Scope list_scope.
Local Open Scope Z_scope.

(** ** Go values *)

(** [int64]: wrap-around of a mathematical integer into [-2^63, 2^63). *)
Definition wrap64 (z : Z) : Z := (z + 2 ^ 63) mod 2 ^ 64 - 2 ^ 63.

Definition int64_add (a b : Z) : Z := wrap64 (a + b).

Definition MaxInt64 : Z := 2 ^ 63 - 1.
Definition MinInt64 : Z := - 2 ^ 63.

(** [len(b)] of a byte slice, as an [int]. *)
Definition len (b : list Byte.byte) : Z := Z.of_nat (length b).

(** Go's [error] values. *)
Inductive error : Type :=
| New (msg : string)
| Wrap (msg : string) (cause : error).

(** [err.Error()]: a wrapped error prints as ["msg: cause"]. *)
Fixpoint Error (e : error) : string :=
  match e with
  | New msg => msg
  | Wrap msg cause => msg +:+ ": " +:+ Error cause
  end.

(** [%d] of an integer. *)
Definition fmt_d (z : Z) : string := pretty z.

(** ** Strings and paths *)

Definition slash : ascii := "/"%char.

(** [strings.HasPrefix(s, "/")]. *)
Definition HasPrefix_slash (s : string) : bool :=
  match s with
  | String a _ => Ascii.eqb a slash
  | EmptyString => false
  end.

(** [strings.Split(s, "/")]. *)
Fixpoint split_slash (s : string) : list string :=
  match s with
  | EmptyString => [EmptyString]
  | String a s' =>
      if Ascii.eqb a slash then EmptyString :: split_slash s'
      else match split_slash s' with
           | [] => [String a EmptyString]
           | x :: xs => String a x :: xs
           end
  end.

(** [strings.Join(elems, "/")]. *)
Fixpoint join_slash (elems : list string) : string :=
  match elems with
  | [] => EmptyString
  | [x] => x
  | x :: xs => x +:+ "/" +:+ join_slash xs
  end.

Definition nonempty (s : string) : bool :=
  match s with EmptyString => false | _ => true end.

(** One step of the lexical processing of [filepath.Clean]: [stack] holds
    the elements kept so far, innermost first. *)
Definition clean_step (rooted : bool) (stack : list string) (c : string)
  : list string :=
  if String.eqb c "" then stack
  else if String.eqb c "." then stack
  else if String.eqb c ".." then
    match stack with
    | top :: rest =>
        if String.eqb top ".." then c :: stack else rest
    | [] => if rooted then [] else [c]
    end
  else c :: stack.

(** [filepath.Clean] on a Unix host: multiple separators collapse, [.]
    elements go, an inner [..] removes the element before it, a [..] at
    the root goes, and the empty result is ["."]. *)
Definition filepath_Clean (p : string) : string :=
  let rooted := HasPrefix_slash p in
  let kept := rev (fold_left (clean_step rooted) (split_slash p) []) in
  let body := join_slash kept in
  if rooted then "/" +:+ body
  else if nonempty body then body else ".".

(** [filepath.Join]: the elements from the first non-empty one on, joined
    by the separator and cleaned; the empty string when all are empty. *)
Fixpoint filepath_Join (elems : list string) : string :=
  match elems with
  | [] => EmptyString
  | e :: rest =>
      if nonempty e then filepath_Clean (join_slash elems)
      else filepath_Join rest
  end.

(** The text of [p] up to and including its last separator. *)
Fixpoint upto_last_slash (p : string) : string :=
  match p with
  | EmptyString => EmptyString
  | String a p' =>
      if existsb (fun c => Ascii.eqb c slash) (list_ascii_of_string p)
      then String a (upto_last_slash p')
      else EmptyString
  end.

(** [filepath.Dir]. *)
Definition filepath_Dir (p : string) : string :=
  filepath_Clean (upto_last_slash p).

(** [path.Base]: the last element of the path; ["."] for the empty path
    and ["/"] for a path of separators only. *)
Definition path_Base (p : string) : string :=
  if nonempty p then
    match rev (filter (fun c => nonempty c = true) (split_slash p)) with
    | c :: _ => c
    | [] => "/"
    end
  else ".".

(** ** [terminal.Progress] and the [float64] arithmetic it uses *)

(** A finite binary64 value [mant * 2^expo]; zero has [mant = 0]. A
    non-zero value is kept normalised, [2^52 <= |mant| < 2^53]. The
    quantities formatted here come from [int64] counters, far from the
    overflow and subnormal ranges, so the exponent is unbounded. *)
Record float64 : Type := F64 { mant : Z; expo : Z }.

(** [n / d] rounded to the nearest integer, ties to even ([0 < d]). *)
Definition div_rne (n d : Z) : Z :=
  let q := n / d in
  let r := n mod d in
  if 2 * r <? d then q
  else if d <? 2 * r then q + 1
  else if Z.even q then q else q + 1.

(** The positive rational [n / d] ([0 < n], [0 < d]) rounded to binary64,
    round-to-nearest-even. *)
Definition round64 (n d : Z) : float64 :=
  let a := Z.log2 n in
  let b := Z.log2 d in
  let ge := if a <? b then d <=? n * 2 ^ (b - a) else d * 2 ^ (a - b) <=? n in
  let k := if ge then a - b else a - b - 1 in
  let e := k - 52 in
  let m := div_rne (n * 2 ^ Z.max (- e) 0) (d * 2 ^ Z.max e 0) in
  if m =? 2 ^ 53 then F64 (2 ^ 52) (e + 1) else F64 m e.

Definition f64_scale (f : float64) (k : Z) : float64 :=
  F64 (mant f) (expo f + k).

Definition f64_signed (neg : bool) (f : float64) : float64 :=
  if neg then F64 (- mant f) (expo f) else f.

(** [float64(z)] for an integer [z]. *)
Definition float64_of_int (z : Z) : float64 :=
  if z =? 0 then F64 0 0
  else f64_signed (z <? 0) (round64 (Z.abs z) 1).

(** [x * y] on binary64. *)
Definition f64_mul (x y : float64) : float64 :=
  if (mant x =? 0) || (mant y =? 0) then F64 0 0
  else f64_signed (negb (Bool.eqb (mant x <? 0) (mant y <? 0)))
         (f64_scale (round64 (Z.abs (mant x) * Z.abs (mant y)) 1)
                    (expo x + expo y)).

(** [x / y] on binary64, for [y] non-zero. *)
Definition f64_div (x y : float64) : float64 :=
  if mant x =? 0 then F64 0 0
  else f64_signed (negb (Bool.eqb (mant x <? 0) (mant y <? 0)))
         (f64_scale (round64 (Z.abs (mant x)) (Z.abs (mant y)))
                    (expo x - expo y)).

(** Two decimal digits, zero-padded. *)
Definition two_digits (n : Z) : string :=
  if n <? 10 then "0" +:+ fmt_d n else fmt_d n.

(** [fmt.Sprintf("%.2f", x)]: the exact value of [x] rounded to two
    decimals, ties to even, with the sign of [x]. *)
Definition fmt_2f (x : float64) : string :=
  let n := div_rne (Z.abs (mant x) * 100 * 2 ^ Z.max (expo x) 0)
                   (2 ^ Z.max (- expo x) 0) in
  (if mant x <? 0 then "-" else "")
  +:+ fmt_d (n / 100) +:+ "." +:+ two_digits (n mod 100).

(** The significand of [float64(100)]: [100 = M100 * 2^-46]. *)
Definition M100 : Z := 7036874417766400.

Module terminal.

(** [terminal.Progress(current, total)]. *)
Definition Progress (current total : Z) : string :=
  if total <=? 0 then ""
  else fmt_2f (f64_div (f64_mul (float64_of_int current) (float64_of_int 100))
                       (float64_of_int total)) +:+ "%".

End terminal.

(** ** The world the downloader runs in *)

(** Results of fallible operations: a Go [(T, error)], or a plain [error]
    with [T := unit]. *)
Inductive result (A : Type) : Type :=
| Ok (a : A)
| Err (e : error).
Arguments Ok {A} a.
Arguments Err {A} e.

(** Modelled from the spec: the type [SHA] is declared outside
    download.go; the design document calls it an optional reference to a
    companion checksum resource. *)
Record SHA_ref : Type := { checksum_resource : string }.

(** [Request]: the URL and the optional ([nil]-able) checksum reference. *)
Record Request : Type := { URL : string; SHA : option SHA_ref }.

(** What [http.NewRequest] builds: the method, the URL and the [Range]
    header if one was set. *)
Record HttpRequest : Type :=
  { Method : string; ReqURL : string; RangeHeader : option string }.

(** What [client.Do] hands back: status, declared length ([-1] when the
    origin declares none), and the body as the chunks its successive
    [Read]s deliver, ended by [io.EOF] ([BodyErr = None]) or by a read
    error. *)
Record Response : Type :=
  { StatusCode : Z;
    ContentLength : Z;
    Body : list (list Byte.byte);
    BodyErr : option error }.

Definition StatusRequestedRangeNotSatisfiable : Z := 416.
Definition StatusPartialContent : Z := 206.

(** Everything the code does to its surroundings, in order. File-system
    events are recorded when the operation took effect. *)
Inductive event : Type :=
| EvMkdirAll (dir : string)
| EvCreate (path : string)
| EvTruncate (path : string) (size : Z)
| EvWrite (path : string) (off : nat) (data : list Byte.byte)
| EvRename (src dst : string)
| EvHTTP (req : HttpRequest)
| EvValidate (url path : string)
| EvGuestRun (args : list string)
| EvPrint (text : string).

(** The regular files of the host, the events so far, and the number of
    clock readings taken. *)
Record World : Type :=
  { files : gmap string (list Byte.byte);
    log : list event;
    ticks : nat }.

Definition set_files (fs : gmap string (list Byte.byte)) (w : World) : World :=
  {| files := fs; log := log w; ticks := ticks w |}.

Definition emit (ev : event) (w : World) : World :=
  {| files := files w; log := log w ++ [ev]; ticks := ticks w |}.

Definition tick (w : World) : World :=
  {| files := files w; log := log w; ticks := S (ticks w) |}.

(** What the surroundings decide during one call: which system call
    fails and with what error, what the origin answers, what the checksum
    validator says of a checksum reference, a URL and the bytes of the
    candidate file at a path, what the guest's command returns, and what
    the monotonic clock reads (in nanoseconds) at each reading. *)
Record Env : Type :=
  { mkdirall_fault : option error;
    openfile_fault : option error;
    stat_fault : option error;
    newrequest_fault : string -> option error;
    client_do : HttpRequest -> result Response;
    truncate_fault : option error;
    seek_fault : option error;
    write_fault : nat -> option (nat * error);
    rename_fault : string -> string -> option error;
    validate : SHA_ref -> string -> string -> list Byte.byte -> option error;
    guest_RunQuiet : list string -> option error;
    clock : nat -> Z }.

(** *** The [os] package *)

(** An open file: the path it was opened at and the write cursor. *)
Record File : Type := { Name : string; offset : nat }.

Inductive whence : Type := SeekStart | SeekCurrent | SeekEnd.

Definition contents (w : World) (path : string) : list Byte.byte :=
  default [] (files w !! path).

(** [os.MkdirAll(dir, 0755)]. Directories are not tracked: the call
    fails or succeeds and no regular file changes. *)
Definition os_MkdirAll (E : Env) (dir : string) (w : World)
  : result unit * World :=
  match mkdirall_fault E with
  | Some err => (Err err, w)
  | None => (Ok tt, emit (EvMkdirAll dir) w)
  end.

(** [os.OpenFile(name, os.O_CREATE|os.O_WRONLY, 0644)]: the file is
    created empty when absent and left as it is otherwise. *)
Definition os_OpenFile (E : Env) (name : string) (w : World)
  : result File * World :=
  match openfile_fault E with
  | Some err => (Err err, w)
  | None =>
      let f := {| Name := name; offset := 0 |} in
      match files w !! name with
      | Some _ => (Ok f, w)
      | None =>
          (Ok f, emit (EvCreate name) (set_files (<[name := []]> (files w)) w))
      end
  end.

(** [f.Stat()], of which only [Size()] is used. *)
Definition File_Stat_Size (E : Env) (f : File) (w : World)
  : result Z * World :=
  match stat_fault E with
  | Some err => (Err err, w)
  | None => (Ok (len (contents w (Name f))), w)
  end.

(** [f.Truncate(size)]: the file is cut or zero-filled to [size]; the
    cursor stays. *)
Definition File_Truncate (E : Env) (f : File) (size : Z) (w : World)
  : result unit * World :=
  match truncate_fault E with
  | Some err => (Err err, w)
  | None =>
      let old := contents w (Name f) in
      let n := Z.to_nat size in
      let new := take n old ++ replicate (n - length old) Byte.x00 in
      (Ok tt, emit (EvTruncate (Name f) size)
                   (set_files (<[Name f := new]> (files w)) w))
  end.

(** [f.Seek(off, whence)]; the new cursor is also the first result. *)
Definition File_Seek (E : Env) (f : File) (off : Z) (wh : whence) (w : World)
  : result (Z * File) * World :=
  match seek_fault E with
  | Some err => (Err err, w)
  | None =>
      let base := match wh with
                  | SeekStart => 0
                  | SeekCurrent => Z.of_nat (offset f)
                  | SeekEnd => len (contents w (Name f))
                  end in
      let pos := base + off in
      (Ok (pos, {| Name := Name f; offset := Z.to_nat pos |}), w)
  end.

(** The bytes of a file after [data] is written at [off]: a gap past the
    end is zero-filled. *)
Definition write_at (old : list Byte.byte) (off : nat) (data : list Byte.byte)
  : list Byte.byte :=
  take off old ++ replicate (off - length old) Byte.x00
    ++ data ++ drop (off + length data) old.

(** [f.Write(b)], the [k]-th write of the copy: all of [b] goes to the
    cursor, or on a fault only its first [n] bytes, with an error. *)
Definition File_Write (E : Env) (k : nat) (f : File) (b : list Byte.byte)
    (w : World) : (File * result unit) * World :=
  let (written, res) :=
    match write_fault E k with
    | Some (n, err) => (take n b, Err err)
    | None => (b, Ok tt)
    end in
  let new := write_at (contents w (Name f)) (offset f) written in
  (({| Name := Name f; offset := offset f + length written |}, res),
   emit (EvWrite (Name f) (offset f) written)
        (set_files (<[Name f := new]> (files w)) w)).

(** [os.Rename(src, dst)]: atomic; it replaces [dst], and fails when
    [src] does not exist. *)
Definition os_Rename (E : Env) (src dst : string) (w : World)
  : result unit * World :=
  match rename_fault E src dst with
  | Some err => (Err err, w)
  | None =>
      match files w !! src with
      | None => (Err (New ("rename " +:+ src +:+ " " +:+ dst
                           +:+ ": no such file or directory")), w)
      | Some c =>
          (Ok tt, emit (EvRename src dst)
                       (set_files (<[dst := c]> (delete src (files w))) w))
      end
  end.

(** [os.Stat(path)] succeeds exactly when the path names a file. *)
Definition os_Stat (path : string) (w : World) : result Z :=
  match files w !! path with
  | Some c => Ok (len c)
  | None => Err (New ("stat " +:+ path +:+ ": no such file or directory"))
  end.

(** *** The [time] package *)

Definition time_Second : Z := 1000000000.

(** [time.Now()]: one more reading of the clock. *)
Definition time_Now (E : Env) (w : World) : Z * World :=
  (clock E (ticks w), tick w).

(** [time.Since(t)]: the zero [time.Time] ([None]) lies further back than
    a [Duration] can hold, and the result saturates. *)
Definition time_Since (E : Env) (t : option Z) (w : World) : Z * World :=
  let (now, w) := time_Now E w in
  match t with
  | None => (MaxInt64, w)
  | Some t0 => (Z.max MinInt64 (Z.min MaxInt64 (now - t0)), w)
  end.

(** *** State passing *)

(** A computation over the world that may fail with an [error]. *)
Definition M (A : Type) : Type := World -> result A * World.

Definition ret {A : Type} (a : A) : M A := fun w => (Ok a, w).

Definition bind {A B : Type} (m : M A) (k : A -> M B) : M B :=
  fun w =>
    match m w with
    | (Ok a, w') => k a w'
    | (Err e, w') => (Err e, w')
    end.

(** [if err != nil { return fmt.Errorf(msg + ": %w", err) }]. *)
Definition wrapping {A : Type} (msg : string) (m : M A) : M A :=
  fun w =>
    match m w with
    | (Ok a, w') => (Ok a, w')
    | (Err e, w') => (Err (Wrap msg e), w')
    end.

Notation "'let*' x ':=' m 'in' k" := (bind m (fun x => k))
  (at level 10, x pattern, m at level 100, k at level 200).

(** ** [Progress] *)

(** [Progress]: the byte counters and the time of the last report; the
    zero [time.Time] is [None]. *)
Record Progress : Type :=
  { Total : Z; Current : Z; lastReport : option Z }.

(** [newProgress(logger, total, current)]. *)
Definition newProgress (total current : Z) : Progress :=
  {| Total := total; Current := current; lastReport := None |}.

(** [fmt.Printf] to the terminal. *)
Definition Printf (text : string) (w : World) : World := emit (EvPrint text) w.

Definition carriage_return : string := String (ascii_of_nat 13) EmptyString.

(** [Progress.Write]: the receiver after the call, and the two
    results [(int, error)]. *)
Definition Write (E : Env) (p : Progress) (b : list Byte.byte) (w : World)
  : (Progress * (Z * option error)) * World :=
  let n := len b in
  let p := {| Total := Total p;
              Current := int64_add (Current p) n;
              lastReport := lastReport p |} in
  let (since, w) := time_Since E (lastReport p) w in
  if since <? time_Second / 2 then ((p, (n, None)), w)
  else
    let (now, w) := time_Now E w in
    let p := {| Total := Total p; Current := Current p;
                lastReport := Some now |} in
    ((p, (n, None)),
     Printf (carriage_return +:+ "downloading ... "
             +:+ terminal.Progress (Current p) (Total p) +:+ " ") w).

(** ** The copy loop: [io.Copy(destFile, io.TeeReader(resp.Body, progress))] *)

(** Each chunk read from the body goes to the meter first (that is the
    tee) and then to the file; an error from either ends the copy after
    the chunk was written, and so does the body's own error after its last
    chunk. A [Read] that delivers nothing is skipped. *)
Fixpoint io_Copy (E : Env) (k : nat) (dst : File) (p : Progress)
    (chunks : list (list Byte.byte)) (eof : option error) (w : World)
  : result unit * World :=
  match chunks with
  | [] => match eof with
          | None => (Ok tt, w)
          | Some err => (Err err, w)
          end
  | c :: rest =>
      match c with
      | [] => io_Copy E k dst p rest eof w
      | _ :: _ =>
          let '((p', (_, er)), w) := Write E p c w in
          let '((dst', ew), w) := File_Write E k dst c w in
          match ew, er with
          | Err err, _ => (Err err, w)
          | Ok _, Some err => (Err err, w)
          | Ok _, None => io_Copy E (S k) dst' p' rest eof w
          end
      end
  end.

(** Successive calls of [Write] on one meter, one for each of the slices
    [bs], as the tee makes them for the chunks of a body. *)
Fixpoint Write_each (E : Env) (p : Progress) (bs : list (list Byte.byte))
    (w : World) : Progress * World :=
  match bs with
  | [] => (p, w)
  | b :: rest =>
      let '((p', _), w') := Write E p b w in
      Write_each E p' rest w'
  end.

(** A [Read] that delivered at least one byte. *)
Definition delivers (c : list Byte.byte) : bool :=
  match c with [] => false | _ :: _ => true end.

(** ** Reading the event log *)

(** The event changes the regular file at path [p]: it creates, cuts or
    writes it, or renames it away or into place. *)
Definition changes_file (p : string) (ev : event) : bool :=
  match ev with
  | EvCreate q | EvTruncate q _ | EvWrite q _ _ => String.eqb q p
  | EvRename src dst => String.eqb src p || String.eqb dst p
  | EvMkdirAll _ | EvHTTP _ | EvValidate _ _ | EvGuestRun _ | EvPrint _ =>
      false
  end.

Definition is_transfer (ev : event) : bool :=
  match ev with EvHTTP _ => true | _ => false end.

Definition is_validation (ev : event) : bool :=
  match ev with EvValidate _ _ => true | _ => false end.

Definition is_write (ev : event) : bool :=
  match ev with EvWrite _ _ _ => true | _ => false end.

(** The number of network transfers among the events. *)
Definition transfers (evs : list event) : nat :=
  length (List.filter is_transfer evs).

(** The events of the phases that work on the in-progress file [dl]
    alone: directory preparation, terminal output, and creating, cutting
    and writing [dl]. *)
Definition local_event (dl : string) (ev : event) : Prop :=
  match ev with
  | EvMkdirAll _ | EvPrint _ => True
  | EvCreate q | EvTruncate q _ | EvWrite q _ _ => q = dl
  | EvRename _ _ | EvHTTP _ | EvValidate _ _ | EvGuestRun _ => False
  end.

(** The events an attempt for [url] can record, [dl], [committed] and
    [quarantine] being the three names of the URL and [req] the request
    of the attempt: events local to [dl], the one request, the validation
    of [dl], and the rename of [dl] to one of the other two names; never
    a command in the guest. *)
Definition attempt_event (dl committed quarantine url : string)
    (req : HttpRequest) (ev : event) : Prop :=
  match ev with
  | EvMkdirAll _ | EvPrint _ => True
  | EvCreate q | EvTruncate q _ | EvWrite q _ _ => q = dl
  | EvRename src dst => src = dl /\ (dst = committed \/ dst = quarantine)
  | EvHTTP rq => rq = req
  | EvValidate u p => u = url /\ p = dl
  | EvGuestRun _ => False
  end.

Definition is_print (ev : event) : bool :=
  match ev with EvPrint _ => true | _ => false end.

Definition is_guest_run (ev : event) : bool :=
  match ev with EvGuestRun _ => true | _ => false end.

(** From [w] to [w']: no file but [dl] changed, [dl] was not removed,
    and only events local to [dl] were recorded. *)
Definition quiet (dl : string) (w w' : World) : Prop :=
  (forall q, q <> dl -> files w' !! q = files w !! q) /\
  (is_Some (files w !! dl) -> is_Some (files w' !! dl)) /\
  exists evs, log w' = log w ++ evs /\ Forall (local_event dl) evs.

(** ** Concrete surroundings

    A cache root, a stand-in for the digest of a URL, an origin that
    gives one fixed answer, and surroundings without faults, used to run
    the downloader on explicit inputs. *)
Module Scenario.

Definition cache_root : string := "/home/user/.cache/colima".

(** A stand-in for the hexadecimal SHA-256 of a URL. *)
Definition url_digest (url : string) : string := "2c26b46b68ffc68f".

Definition committed_path : string :=
  "/home/user/.cache/colima/caches/2c26b46b68ffc68f".

Definition downloading_path : string :=
  "/home/user/.cache/colima/caches/2c26b46b68ffc68f.downloading".

Definition url : string := "https://example.test/file.bin".

Definition payload (n : nat) : list Byte.byte := replicate n "A"%byte.

Definition fresh (n : nat) : list Byte.byte := replicate n "B"%byte.

Definition answer (status length : Z) (chunks : list (list Byte.byte))
  : Response :=
  {| StatusCode := status; ContentLength := length;
     Body := chunks; BodyErr := None |}.

(** No fault anywhere; the origin always gives [resp]; the checksum
    validator expects the digest [want], the digest of a file being its
    length in decimal; readings of the clock are 300 ms apart. *)
Definition env (resp : Response) (want : string) : Env :=
  {| mkdirall_fault := None;
     openfile_fault := None;
     stat_fault := None;
     newrequest_fault := fun _ => None;
     client_do := fun _ => Ok resp;
     truncate_fault := None;
     seek_fault := None;
     write_fault := fun _ => None;
     rename_fault := fun _ _ => None;
     validate := fun _ _ _ b =>
                   if String.eqb want (fmt_d (len b)) then None
                   else Some (New ("checksum mismatch: expected " +:+ want
                                   +:+ ", got " +:+ fmt_d (len b)));
     guest_RunQuiet := fun _ => None;
     clock := fun n => Z.of_nat n * 300000000 |}.

(** The same surroundings with a body that breaks off with an error
    after its chunks. *)
Definition broken (resp : Response) : Response :=
  {| StatusCode := StatusCode resp; ContentLength := ContentLength resp;
     Body := Body resp; BodyErr := Some (New "unexpected EOF") |}.

(** Surroundings in which the origin cannot be reached. *)
Definition offline : Env :=
  {| mkdirall_fault := None;
     openfile_fault := None;
     stat_fault := None;
     newrequest_fault := fun _ => None;
     client_do := fun _ => Err (New "dial tcp: connection refused");
     truncate_fault := None;
     seek_fault := None;
     write_fault := fun _ => None;
     rename_fault := fun _ _ => None;
     validate := fun _ _ _ _ => None;
     guest_RunQuiet := fun _ => None;
     clock := fun n => Z.of_nat n * 300000000 |}.

(** Surroundings in which the cache directory cannot be made. *)
Definition read_only : Env :=
  {| mkdirall_fault :=
       Some (New "mkdir /home/user/.cache: read-only file system");
     openfile_fault := None;
     stat_fault := None;
     newrequest_fault := fun _ => None;
     client_do := fun _ => Err (New "dial tcp: connection refused");
     truncate_fault := None;
     seek_fault := None;
     write_fault := fun _ => None;
     rename_fault := fun _ _ => None;
     validate := fun _ _ _ _ => None;
     guest_RunQuiet := fun _ => None;
     clock := fun n => Z.of_nat n * 300000000 |}.

Definition empty_world : World := {| files := ∅; log := []; ticks := 0 |}.

(** A world with [n] bytes of an earlier attempt in the in-progress
    file. *)
Definition partial_world (n : nat) : World :=
  {| files := {[ downloading_path := payload n ]}; log := []; ticks := 0 |}.

Definition plain_request : Request := {| URL := url; SHA := None |}.

Definition checked_request : Request :=
  {| URL := url; SHA := Some {| checksum_resource := "SHA256SUMS" |} |}.

Definition local_request : Request :=
  {| URL := "/var/lib/images/disk.img";
     SHA := Some {| checksum_resource := "SHA256SUMS" |} |}.

End Scenario.

(** ** The downloader *)

Section Downloader.

(** [config.CacheDir()]: the cache root of the process. *)
Variable CacheDir : string.

(** [shautil.SHA256(url).String()]: the hexadecimal digest of the URL. *)
Variable SHA256 : string -> string.

(** [CacheFilename]. *)
Definition CacheFilename (url : string) : string :=
  filepath_Join [CacheDir; "caches"; SHA256 url].

(** [downloader.cacheDownloadingFileName]. *)
Definition cacheDownloadingFileName (url : string) : string :=
  CacheFilename url +:+ ".downloading".

(** The name a file that failed validation is moved to (line 186). *)
Definition quarantineFileName (url : string) : string :=
  cacheDownloadingFileName url +:+ ".invalid".

(** [downloader.hasCache]. *)
Definition hasCache (url : string) (w : World) : bool :=
  match os_Stat (CacheFilename url) w with
  | Ok _ => true
  | Err _ => false
  end.

(** Modelled from the spec: [SHA.validateDownload] is declared outside
    download.go. By its contract it compares the expected digest of the
    checksum resource with the digest of the candidate file's bytes,
    fails on a mismatch or when the resource cannot be retrieved, and
    only reads the file system; its verdict is the environment's. *)
Definition validateDownload (E : Env) (sha : SHA_ref) (url path : string)
  : M unit :=
  fun w =>
    (match validate E sha url path (contents w path) with
     | Some err => Err err
     | None => Ok tt
     end,
     emit (EvValidate url path) w).

(** Lines 87-110: prepare the cache directory, open the in-progress file
    and read its length. *)
Definition prepare (E : Env) (r : Request) : M (File * Z) :=
  let cacheDownloadingFilename := cacheDownloadingFileName (URL r) in
  let* _ := wrapping "error preparing cache dir"
              (os_MkdirAll E (filepath_Dir cacheDownloadingFilename)) in
  let* destFile := wrapping "error creating destination file"
                     (os_OpenFile E cacheDownloadingFilename) in
  let* currentSize := wrapping "error getting file stat"
                        (File_Stat_Size E destFile) in
  ret (destFile, currentSize).

(** [http.NewRequest("GET", url, nil)]. *)
Definition http_NewRequest (E : Env) (url : string) : M HttpRequest :=
  fun w =>
    match newrequest_fault E url with
    | Some err => (Err err, w)
    | None => (Ok {| Method := "GET"; ReqURL := url; RangeHeader := None |}, w)
    end.

(** [req.Header.Set("Range", v)]. *)
Definition set_Range (v : string) (req : HttpRequest) : HttpRequest :=
  {| Method := Method req; ReqURL := ReqURL req; RangeHeader := Some v |}.

(** [client.Do(req)]: one transfer on the network. *)
Definition client_Do (E : Env) (req : HttpRequest) : M Response :=
  fun w => (client_do E req, emit (EvHTTP req) w).

(** Lines 112-136: build the request, ask for the rest of the resource
    when there is a partial file, and send it. *)
Definition fetch (E : Env) (r : Request) (currentSize : Z) : M Response :=
  let* req := wrapping "error creating request" (http_NewRequest E (URL r)) in
  let req := if 0 <? currentSize
             then set_Range ("bytes=" +:+ fmt_d currentSize +:+ "-") req
             else req in
  wrapping "error during download" (client_Do E req).

(** Lines 139-148: on 416 the partial file is emptied and the current
    size reset; the result is the current size from here on. *)
Definition restart (E : Env) (destFile : File) (resp : Response)
    (currentSize : Z) : M Z :=
  if StatusCode resp =? StatusRequestedRangeNotSatisfiable then
    let* _ := wrapping "error truncating file" (File_Truncate E destFile 0) in
    ret 0
  else ret currentSize.

(** Lines 150-154: any status outside [200, 300) ends the attempt. *)
Definition check_status (resp : Response) : M unit :=
  fun w =>
    if (StatusCode resp <? 200) || (300 <=? StatusCode resp)
    then (Err (New ("unexpected status code: " +:+ fmt_d (StatusCode resp))), w)
    else (Ok tt, w).

(** Lines 156-169: the cursor goes to the end of the file on 206 and to
    its start otherwise. *)
Definition position (E : Env) (destFile : File) (resp : Response) : M File :=
  if StatusCode resp =? StatusPartialContent then
    let* (_, f) := wrapping "error seeking to end of file"
                      (File_Seek E destFile 0 SeekEnd) in
    ret f
  else
    let* (_, f) := wrapping "error seeking to start of file"
                      (File_Seek E destFile 0 SeekStart) in
    ret f.

(** Line 172: the meter of the transfer. *)
Definition transfer_meter (resp : Response) (currentSize : Z) : Progress :=
  newProgress (int64_add (ContentLength resp) currentSize) currentSize.

(** Lines 171-179: copy the body to the file through the meter. *)
Definition copy_stream (E : Env) (destFile : File) (resp : Response)
    (currentSize : Z) : M unit :=
  let progress := transfer_meter resp currentSize in
  wrapping "error writing to file"
    (io_Copy E 0 destFile progress (Body resp) (BodyErr resp)).

(** Lines 181-194: validate when a checksum reference is present; move a
    file that fails aside, dropping the error of that move; otherwise
    rename the file to its final name. *)
Definition finish (E : Env) (r : Request) : M unit :=
  let cacheDownloadingFilename := cacheDownloadingFileName (URL r) in
  fun w =>
    let '(validated, w) :=
      match SHA r with
      | Some sha =>
          validateDownload E sha (URL r) cacheDownloadingFilename w
      | None => (Ok tt, w)
      end in
    match validated with
    | Err err =>
        let '(_, w) := os_Rename E cacheDownloadingFilename
                         (cacheDownloadingFilename +:+ ".invalid") w in
        (Err (Wrap ("error validating SHA sum for '" +:+ path_Base (URL r)
                    +:+ "'") err), w)
    | Ok _ =>
        os_Rename E cacheDownloadingFilename (CacheFilename (URL r)) w
    end.

(** The part of [downloader.downloadFile] before validation, lines
    87-179: on success the body has been copied to the in-progress
    file. *)
Definition stream (E : Env) (r : Request) : M unit :=
  let* (destFile, currentSize) := prepare E r in
  let* resp := fetch E r currentSize in
  let* currentSize := restart E destFile resp currentSize in
  let* _ := check_status resp in
  let* destFile := position E destFile resp in
  copy_stream E destFile resp currentSize.

(** [downloader.downloadFile]. *)
Definition downloadFile (E : Env) (r : Request) : M unit :=
  let* _ := stream E r in
  finish E r.

(** [Download]. *)
Definition Download (E : Env) (r : Request) : M string :=
  fun w =>
    if negb (hasCache (URL r) w) then
      match downloadFile E r w with
      | (Err err, w) =>
          (Err (Wrap ("error downloading '" +:+ URL r +:+ "'") err), w)
      | (Ok _, w) => (Ok (CacheFilename (URL r)), w)
      end
    else (Ok (CacheFilename (URL r)), w).

(** [guest.RunQuiet(args...)]: a command run in the guest. *)
Definition guest_Run (E : Env) (args : list string) : M unit :=
  fun w =>
    (match guest_RunQuiet E args with Some err => Err err | None => Ok tt end,
     emit (EvGuestRun args) w).

(** [DownloadToGuest]. *)
Definition DownloadToGuest (E : Env) (r : Request) (filename : string)
  : M unit :=
  if HasPrefix_slash (URL r) then guest_Run E ["cp"; URL r; filename]
  else
    let* cacheFile := Download E r in
    guest_Run E ["cp"; cacheFile; filename].

(** ** Properties *)

(** *** Paths *)

Lemma length_append (s t : string) :
  String.length (s +:+ t) = (String.length s + String.length t)%nat.
Proof. induction s as [|a s IH]; simpl; [reflexivity | now rewrite IH]. Qed.

Lemma append_append (s t u : string) : (s +:+ t) +:+ u = s +:+ (t +:+ u).
Proof.
  induction s as [|a s IH]; [reflexivity |].
  change (String a ((s +:+ t) +:+ u) = String a (s +:+ (t +:+ u))).
  now f_equal.
Qed.

Lemma append_neq (s t : string) : nonempty t = true -> s <> s +:+ t.
Proof.
  intros Ht Heq. apply (f_equal String.length) in Heq.
  rewrite length_append in Heq. destruct t; [discriminate | simpl in Heq; lia].
Qed.

Lemma committed_neq_downloading (url : string) :
  CacheFilename url <> cacheDownloadingFileName url.
Proof. apply append_neq. reflexivity. Qed.

Lemma committed_neq_quarantine (url : string) :
  CacheFilename url <> quarantineFileName url.
Proof.
  unfold quarantineFileName, cacheDownloadingFileName.
  rewrite append_append. apply append_neq. reflexivity.
Qed.

Lemma downloading_neq_quarantine (url : string) :
  cacheDownloadingFileName url <> quarantineFileName url.
Proof. apply append_neq. reflexivity. Qed.

(** *** State passing *)

Lemma bind_inv {A B : Type} (m : M A) (k : A -> M B) w res w' :
  bind m k w = (res, w') ->
  (exists a w1, m w = (Ok a, w1) /\ k a w1 = (res, w')) \/
  (exists e, m w = (Err e, w') /\ res = Err e).
Proof.
  unfold bind. destruct (m w) as [[a|e] w1]; intros H.
  - left. eauto.
  - right. inversion H; subst. eauto.
Qed.

Lemma wrapping_inv {A : Type} (msg : string) (m : M A) w res w' :
  wrapping msg m w = (res, w') ->
  (exists a, m w = (Ok a, w') /\ res = Ok a) \/
  (exists e, m w = (Err e, w') /\ res = Err (Wrap msg e)).
Proof.
  unfold wrapping. destruct (m w) as [[a|e] w1]; intros H;
    inversion H; subst; eauto.
Qed.

Lemma wrapping_ok {A : Type} (msg : string) (m : M A) w a w' :
  wrapping msg m w = (Ok a, w') -> m w = (Ok a, w').
Proof.
  intros H. apply wrapping_inv in H as [(b & H & Hb) | (e & _ & ?)];
    [| discriminate]. now inv Hb.
Qed.

Lemma wrapping_err {A : Type} (msg : string) (m : M A) w e w' :
  wrapping msg m w = (Err e, w') ->
  exists cause, m w = (Err cause, w') /\ e = Wrap msg cause.
Proof.
  intros H. apply wrapping_inv in H as [(b & _ & ?) | (c & H & Hc)];
    [discriminate |]. inv Hc. eauto.
Qed.

(** *** Quiet steps *)

Lemma quiet_refl dl w : quiet dl w w.
Proof.
  repeat split; auto. exists []. split; [now rewrite app_nil_r | constructor].
Qed.

Lemma quiet_trans dl w1 w2 w3 :
  quiet dl w1 w2 -> quiet dl w2 w3 -> quiet dl w1 w3.
Proof.
  intros (F1 & S1 & evs1 & L1 & P1) (F2 & S2 & evs2 & L2 & P2).
  repeat split.
  - intros q Hq. rewrite F2, F1; auto.
  - auto.
  - exists (evs1 ++ evs2). split.
    + rewrite L2, L1. now rewrite app_assoc.
    + apply Forall_app; auto.
Qed.

Lemma quiet_emit dl ev w : local_event dl ev -> quiet dl w (emit ev w).
Proof.
  intros H. repeat split; auto. exists [ev].
  split; [reflexivity | repeat constructor; exact H].
Qed.

Lemma quiet_set dl ev c w :
  local_event dl ev ->
  quiet dl w (emit ev (set_files (<[dl := c]> (files w)) w)).
Proof.
  intros H. repeat split.
  - intros q Hq. simpl. now rewrite lookup_insert_ne.
  - intros _. simpl. rewrite lookup_insert_eq. eauto.
  - exists [ev]. split; [reflexivity | repeat constructor; exact H].
Qed.

(** *** The system calls *)

Lemma os_MkdirAll_quiet E dl dir w res w' :
  os_MkdirAll E dir w = (res, w') -> quiet dl w w'.
Proof.
  unfold os_MkdirAll. destruct (mkdirall_fault E); intros H; inv H.
  - apply quiet_refl.
  - now apply quiet_emit.
Qed.

Lemma os_MkdirAll_files E dir w res w' :
  os_MkdirAll E dir w = (res, w') -> files w' = files w.
Proof.
  unfold os_MkdirAll. destruct (mkdirall_fault E); intros H; now inv H.
Qed.

Lemma os_OpenFile_spec E name w res w' :
  os_OpenFile E name w = (res, w') ->
  quiet name w w' /\
  forall f, res = Ok f ->
    f = {| Name := name; offset := 0 |} /\
    files w' !! name = Some (contents w name).
Proof.
  unfold os_OpenFile, contents.
  destruct (openfile_fault E).
  { intros H; inv H. split; [apply quiet_refl | discriminate]. }
  destruct (files w !! name) as [c|] eqn:Hc; intros H; inv H.
  - split; [apply quiet_refl |]. intros f Hf. inv Hf. auto.
  - split; [now apply quiet_set |]. intros f Hf. inv Hf.
    split; [reflexivity |]. simpl. now rewrite lookup_insert_eq.
Qed.

Lemma File_Stat_Size_spec E f w res w' :
  File_Stat_Size E f w = (res, w') ->
  w' = w /\ forall n, res = Ok n -> n = len (contents w (Name f)).
Proof.
  unfold File_Stat_Size. destruct (stat_fault E); intros H; inv H;
    (split; [reflexivity |]); intros n Hn; now inv Hn.
Qed.

Lemma File_Truncate_spec E f w res w' :
  File_Truncate E f 0 w = (res, w') ->
  quiet (Name f) w w' /\
  match res with
  | Ok _ => files w' !! Name f = Some [] /\
            log w' = log w ++ [EvTruncate (Name f) 0]
  | Err _ => w' = w
  end.
Proof.
  unfold File_Truncate. destruct (truncate_fault E); intros H; inv H.
  - split; [apply quiet_refl | reflexivity].
  - split; [now apply quiet_set |]. simpl. now rewrite lookup_insert_eq.
Qed.

Lemma File_Seek_spec E f off wh w res w' :
  File_Seek E f off wh w = (res, w') ->
  w' = w /\
  forall pos f', res = Ok (pos, f') ->
    Name f' = Name f /\ offset f' = Z.to_nat pos /\
    pos = match wh with
          | SeekStart => 0
          | SeekCurrent => Z.of_nat (offset f)
          | SeekEnd => len (contents w (Name f))
          end + off.
Proof.
  unfold File_Seek. destruct (seek_fault E); intros H; inv H;
    (split; [reflexivity |]); intros pos f' Hf; inv Hf. auto.
Qed.

Lemma File_Write_quiet E k f b w f' res w' :
  File_Write E k f b w = ((f', res), w') ->
  quiet (Name f) w w' /\ Name f' = Name f.
Proof.
  unfold File_Write. destruct (write_fault E k) as [[n err]|]; intros H; inv H;
    (split; [now apply quiet_set | reflexivity]).
Qed.

Lemma Write_result E p b w :
  exists p' w',
    Write E p b w = ((p', (len b, None)), w') /\
    Current p' = int64_add (Current p) (len b) /\
    Total p' = Total p /\
    files w' = files w /\
    (log w' = log w \/
     log w' = log w ++ [EvPrint (carriage_return +:+ "downloading ... "
                +:+ terminal.Progress (Current p') (Total p') +:+ " ")]).
Proof.
  unfold Write, time_Since, time_Now. simpl.
  destruct (lastReport p) as [t0|]; simpl.
  - destruct (_ <? _); simpl; eauto 10.
  - eauto 10.
Qed.

Lemma Write_quiet E dl p b w out w' :
  Write E p b w = (out, w') -> quiet dl w w'.
Proof.
  destruct (Write_result E p b w) as (p' & w1 & Hw & _ & _ & Hf & Hl).
  rewrite Hw. intros H; inv H. repeat split.
  - intros q _. now rewrite Hf.
  - now rewrite Hf.
  - destruct Hl as [Hl | Hl]; rewrite Hl.
    + exists []. split; [now rewrite app_nil_r | constructor].
    + eexists. split; [reflexivity | repeat constructor].
Qed.

Lemma io_Copy_quiet E chunks eof : forall k dst p w res w',
  io_Copy E k dst p chunks eof w = (res, w') -> quiet (Name dst) w w'.
Proof.
  induction chunks as [|c rest IH]; intros k dst p w res w'; simpl.
  - destruct eof; intros H; inv H; apply quiet_refl.
  - destruct c as [|b c]; [apply IH |].
    destruct (Write E p (b :: c) w) as [[p' [n er]] w1] eqn:HW.
    destruct (File_Write E k dst (b :: c) w1) as [[dst' ew] w2] eqn:HF.
    apply (Write_quiet E (Name dst)) in HW.
    apply File_Write_quiet in HF as [HF Hn].
    pose proof (quiet_trans _ _ _ _ HW HF) as Hq.
    destruct ew as [[]|err]; [destruct er as [err|] |]; intros H.
    + inv H. exact Hq.
    + apply IH in H. rewrite Hn in H. eapply quiet_trans; eauto.
    + inv H. exact Hq.
Qed.

(** *** The phases of [downloadFile] *)

Lemma prepare_spec E r w res w' :
  prepare E r w = (res, w') ->
  let dl := cacheDownloadingFileName (URL r) in
  quiet dl w w' /\
  forall f L, res = Ok (f, L) ->
    f = {| Name := dl; offset := 0 |} /\
    files w' !! dl = Some (contents w dl) /\
    L = len (contents w dl).
Proof.
  intros H dl. unfold prepare in H. fold dl in H.
  apply bind_inv in H as [(u & w1 & H1 & H) | (e & H1 & ->)].
  2:{ apply wrapping_err in H1 as (? & H1 & _).
      split; [eapply os_MkdirAll_quiet; eauto | discriminate]. }
  apply wrapping_ok in H1.
  pose proof (os_MkdirAll_files _ _ _ _ _ H1) as Hm.
  apply (os_MkdirAll_quiet E dl) in H1.
  apply bind_inv in H as [(f & w2 & H2 & H) | (e & H2 & ->)].
  2:{ apply wrapping_err in H2 as (? & H2 & _).
      apply os_OpenFile_spec in H2 as [H2 _].
      split; [eapply quiet_trans; eauto | discriminate]. }
  apply wrapping_ok in H2. apply os_OpenFile_spec in H2 as [H2 Hf].
  destruct (Hf _ eq_refl) as [-> Hc].
  assert (Hq : quiet dl w w2) by (eapply quiet_trans; eauto).
  assert (Hcw : contents w2 dl = contents w dl).
  { unfold contents at 1. rewrite Hc. unfold contents. now rewrite Hm. }
  apply bind_inv in H as [(L & w3 & H3 & H) | (e & H3 & ->)].
  2:{ apply wrapping_err in H3 as (? & H3 & _).
      apply File_Stat_Size_spec in H3 as [-> _].
      split; [exact Hq | discriminate]. }
  apply wrapping_ok in H3. apply File_Stat_Size_spec in H3 as [-> HL].
  inv H. split; [exact Hq |]. intros f' L' Hfl. inv Hfl.
  rewrite (HL _ eq_refl). simpl. fold dl. rewrite Hcw.
  repeat split. rewrite Hc. unfold contents. now rewrite Hm.
Qed.

Lemma fetch_spec E r L w res w' :
  fetch E r L w = (res, w') ->
  (w' = w /\ exists e, res = Err e) \/
  (exists req,
      req = {| Method := "GET"; ReqURL := URL r;
               RangeHeader := if 0 <? L
                              then Some ("bytes=" +:+ fmt_d L +:+ "-")
                              else None |} /\
      w' = emit (EvHTTP req) w /\
      match res with
      | Ok resp => client_do E req = Ok resp
      | Err e => exists e', client_do E req = Err e'
      end).
Proof.
  unfold fetch, http_NewRequest, client_Do, set_Range. intros H.
  apply bind_inv in H as [(req & w1 & H1 & H) | (e & H1 & ->)].
  2:{ apply wrapping_err in H1 as (? & H1 & _).
      left. destruct (newrequest_fault E (URL r)); inv H1. eauto. }
  apply wrapping_ok in H1. destruct (newrequest_fault E (URL r)); inv H1.
  right. eexists. split; [reflexivity |].
  apply wrapping_inv in H as [(a & H & ->) | (e' & H & ->)]; simpl in *.
  - destruct (0 <? L); inv H; auto.
  - destruct (0 <? L); inv H; eauto.
Qed.

Lemma restart_spec E f resp L w res w' :
  restart E f resp L w = (res, w') ->
  quiet (Name f) w w' /\
  forall L', res = Ok L' ->
    if StatusCode resp =? StatusRequestedRangeNotSatisfiable
    then L' = 0 /\ files w' !! Name f = Some []
    else L' = L /\ w' = w.
Proof.
  unfold restart. destruct (StatusCode resp =? _); intros H.
  - apply bind_inv in H as [(u & w1 & H1 & H) | (e & H1 & ->)].
    + apply wrapping_ok in H1.
      apply File_Truncate_spec in H1 as [Hq [Hc _]]. inv H.
      split; [exact Hq |]. intros L' HL. inv HL. auto.
    + apply wrapping_err in H1 as (? & H1 & _).
      apply File_Truncate_spec in H1 as [Hq _].
      split; [exact Hq | discriminate].
  - inv H. split; [apply quiet_refl |]. intros L' HL. inv HL. auto.
Qed.

Lemma check_status_spec resp w res w' :
  check_status resp w = (res, w') ->
  w' = w /\
  match res with
  | Ok _ => 200 <= StatusCode resp < 300
  | Err e => e = New ("unexpected status code: " +:+ fmt_d (StatusCode resp))
             /\ (StatusCode resp < 200 \/ 300 <= StatusCode resp)
  end.
Proof.
  unfold check_status.
  destruct (StatusCode resp <? 200) eqn:H1; simpl.
  - intros H; inv H. split; [reflexivity |]. split; [reflexivity | lia].
  - destruct (300 <=? StatusCode resp) eqn:H2; intros H; inv H;
      (split; [reflexivity |]); [split; [reflexivity | lia] | lia].
Qed.

Lemma position_spec E f resp w res w' :
  position E f resp w = (res, w') ->
  w' = w /\
  forall f', res = Ok f' ->
    Name f' = Name f /\
    offset f' = if StatusCode resp =? StatusPartialContent
                then length (contents w (Name f)) else 0%nat.
Proof.
  unfold position. destruct (StatusCode resp =? _); intros H.
  all: apply bind_inv in H as [([pos f1] & w1 & H1 & H) | (e & H1 & ->)];
    [apply wrapping_ok in H1; inv H
    | apply wrapping_err in H1 as (? & H1 & _)];
    apply File_Seek_spec in H1 as [-> Hs]; (split; [reflexivity |]);
    try discriminate.
  all: intros f' Hf; inv Hf;
    destruct (Hs _ _ eq_refl) as (Hn & Ho & Hp); split; [exact Hn |];
    rewrite Ho, Hp; unfold len; simpl; lia.
Qed.

Lemma copy_stream_quiet E f resp L w res w' :
  copy_stream E f resp L w = (res, w') -> quiet (Name f) w w'.
Proof.
  unfold copy_stream. intros H.
  apply wrapping_inv in H as [(a & H & _) | (e & H & _)];
    eapply io_Copy_quiet; eauto.
Qed.

(** An attempt either ends before the request is sent, having touched
    only the in-progress file, or sends exactly one request, for the rest
    of the resource when a partial file was found, and again touches only
    the in-progress file afterwards. *)
Lemma stream_spec E r w res w' :
  stream E r w = (res, w') ->
  let dl := cacheDownloadingFileName (URL r) in
  (quiet dl w w' /\ exists e, res = Err e) \/
  (exists w1 req,
      quiet dl w w1 /\
      files w1 !! dl = Some (contents w dl) /\
      req = {| Method := "GET"; ReqURL := URL r;
               RangeHeader := if 0 <? len (contents w dl)
                              then Some ("bytes="
                                         +:+ fmt_d (len (contents w dl))
                                         +:+ "-")
                              else None |} /\
      quiet dl (emit (EvHTTP req) w1) w' /\
      match res with
      | Ok _ => exists resp, client_do E req = Ok resp /\
                             200 <= StatusCode resp < 300
      | Err _ => True
      end).
Proof.
  intros H dl. unfold stream in H.
  apply bind_inv in H as [([f L] & w1 & H1 & H) | (e & H1 & ->)].
  2:{ left. apply prepare_spec in H1 as [Hq _]. eauto. }
  apply prepare_spec in H1 as [Hq1 Hp]. fold dl in Hq1, Hp.
  destruct (Hp _ _ eq_refl) as (-> & Hc & ->). clear Hp.
  apply bind_inv in H as [(resp & w2 & H2 & H) | (e & H2 & ->)].
  2:{ apply fetch_spec in H2 as [[-> _] | (req & Hreq & -> & _)].
      - left. eauto.
      - right. exists w1, req.
        split; [exact Hq1 |]. split; [exact Hc |]. split; [exact Hreq |].
        split; [apply quiet_refl | exact I]. }
  apply fetch_spec in H2 as [[_ [e ?]] | (req & Hreq & -> & Hdo)];
    [discriminate |].
  right. exists w1, req. split; [exact Hq1 |]. split; [exact Hc |].
  split; [exact Hreq |].
  apply bind_inv in H as [(L' & w3 & H3 & H) | (e & H3 & ->)].
  2:{ apply restart_spec in H3 as [Hq _]. split; [exact Hq | exact I]. }
  apply restart_spec in H3 as [Hq3 _]. simpl in Hq3.
  apply bind_inv in H as [(u & w4 & H4 & H) | (e & H4 & ->)].
  2:{ apply check_status_spec in H4 as [-> _]. split; [exact Hq3 | exact I]. }
  apply check_status_spec in H4 as [-> Hst].
  apply bind_inv in H as [(f' & w5 & H5 & H) | (e & H5 & ->)].
  2:{ apply position_spec in H5 as [-> _]. split; [exact Hq3 | exact I]. }
  apply position_spec in H5 as [-> Hpos].
  destruct (Hpos _ eq_refl) as [Hn _]. simpl in Hn.
  apply copy_stream_quiet in H. rewrite Hn in H.
  split; [eapply quiet_trans; eauto |].
  destruct res; eauto.
Qed.

(** *** What an attempt leaves in the log *)

Lemma eqb_neq_false (p q : string) : p <> q -> String.eqb q p = false.
Proof. intros H. apply String.eqb_neq. congruence. Qed.

Lemma local_event_unchanged dl p ev :
  p <> dl -> local_event dl ev -> changes_file p ev = false.
Proof.
  intros Hp. destruct ev; simpl; try reflexivity; try contradiction;
    intros ->; now apply eqb_neq_false.
Qed.

Lemma local_event_no_transfer dl ev :
  local_event dl ev -> is_transfer ev = false.
Proof. destruct ev; simpl; auto; contradiction. Qed.

Lemma local_event_no_validation dl ev :
  local_event dl ev -> is_validation ev = false.
Proof. destruct ev; simpl; auto; contradiction. Qed.

Lemma transfers_app evs1 evs2 :
  transfers (evs1 ++ evs2) = (transfers evs1 + transfers evs2)%nat.
Proof. unfold transfers. now rewrite List.filter_app, length_app. Qed.

Lemma transfers_none evs :
  Forall (fun ev => is_transfer ev = false) evs -> transfers evs = 0%nat.
Proof.
  unfold transfers. induction 1 as [|ev evs Hev _ IH]; [reflexivity |].
  simpl. now rewrite Hev.
Qed.

(** The events of the streaming part of an attempt: none changes a file
    other than the in-progress one, none is a validation, and at most one
    is a transfer, exactly one when the part succeeds. *)
Lemma stream_trace E r w res w' :
  stream E r w = (res, w') ->
  let dl := cacheDownloadingFileName (URL r) in
  (forall p, p <> dl -> files w' !! p = files w !! p) /\
  (res = Ok tt -> is_Some (files w' !! dl)) /\
  exists evs,
    log w' = log w ++ evs /\
    (forall p, p <> dl -> Forall (fun ev => changes_file p ev = false) evs) /\
    Forall (fun ev => is_validation ev = false) evs /\
    (transfers evs <= 1)%nat /\
    (res = Ok tt -> transfers evs = 1%nat).
Proof.
  intros H dl. apply stream_spec in H. fold dl in H.
  destruct H as [[(F & S & evs & L & P) [e ->]] |
                 (w1 & req & (F1 & S1 & evs1 & L1 & P1) & Hc & -> &
                  (F2 & S2 & evs2 & L2 & P2) & Hres)].
  - split; [exact F |]. split; [discriminate |].
    exists evs. split; [exact L |]. repeat split.
    + intros p Hp. eapply Forall_impl; [exact P |].
      intros ev. now apply local_event_unchanged.
    + eapply Forall_impl; [exact P |]. apply local_event_no_validation.
    + rewrite transfers_none; [lia |].
      eapply Forall_impl; [exact P |]. apply local_event_no_transfer.
    + discriminate.
  - simpl in F2, S2, L2.
    assert (T1 : transfers evs1 = 0%nat).
    { apply transfers_none. eapply Forall_impl; [exact P1 |].
      apply local_event_no_transfer. }
    assert (T2 : transfers evs2 = 0%nat).
    { apply transfers_none. eapply Forall_impl; [exact P2 |].
      apply local_event_no_transfer. }
    split; [intros p Hp; rewrite F2, F1; auto |].
    split; [intros _; apply S2; rewrite Hc; eauto |].
    eexists (evs1 ++ [EvHTTP _] ++ evs2). split.
    { rewrite L2, L1. now rewrite <- !app_assoc. }
    repeat split.
    + intros p Hp. apply Forall_app. split.
      * eapply Forall_impl; [exact P1 |].
        intros ev. now apply local_event_unchanged.
      * constructor; [reflexivity |].
        eapply Forall_impl; [exact P2 |].
        intros ev. now apply local_event_unchanged.
    + apply Forall_app. split.
      * eapply Forall_impl; [exact P1 |]. apply local_event_no_validation.
      * constructor; [reflexivity |].
        eapply Forall_impl; [exact P2 |]. apply local_event_no_validation.
    + rewrite !transfers_app, T1, T2. simpl. lia.
    + intros _. rewrite !transfers_app, T1, T2. reflexivity.
Qed.

(** *** Validation and the two renames *)

Lemma validateDownload_world E sha url path w :
  snd (validateDownload E sha url path w) = emit (EvValidate url path) w.
Proof. reflexivity. Qed.

(** The last phase, when the in-progress file holds [c]: the file goes
    to the final name when validation is absent or passes and the rename
    works, to the quarantine name when validation fails and that rename
    works, and stays where it is otherwise. *)
Lemma finish_spec E r w c res w' :
  finish E r w = (res, w') ->
  let dl := cacheDownloadingFileName (URL r) in
  files w !! dl = Some c ->
  let vevs := match SHA r with
              | Some _ => [EvValidate (URL r) dl]
              | None => []
              end in
  let validated := match SHA r with
                   | Some sha => fst (validateDownload E sha (URL r) dl w)
                   | None => Ok tt
                   end in
  match validated with
  | Ok _ =>
      match rename_fault E dl (CacheFilename (URL r)) with
      | Some e =>
          res = Err e /\ files w' = files w /\ log w' = log w ++ vevs
      | None =>
          res = Ok tt /\
          files w' = <[CacheFilename (URL r) := c]> (delete dl (files w)) /\
          log w' = log w ++ vevs ++ [EvRename dl (CacheFilename (URL r))]
      end
  | Err verr =>
      res = Err (Wrap ("error validating SHA sum for '" +:+ path_Base (URL r)
                       +:+ "'") verr) /\
      match rename_fault E dl (quarantineFileName (URL r)) with
      | Some _ => files w' = files w /\ log w' = log w ++ vevs
      | None =>
          files w'
          = <[quarantineFileName (URL r) := c]> (delete dl (files w)) /\
          log w' = log w ++ vevs ++ [EvRename dl (quarantineFileName (URL r))]
      end
  end.
Proof.
  intros H dl Hc vevs validated. unfold finish in H. fold dl in H.
  assert (Hv : match SHA r with
               | Some sha => validateDownload E sha (URL r) dl w
               | None => (Ok tt, w)
               end = (validated, {| files := files w; log := log w ++ vevs;
                                    ticks := ticks w |})).
  { subst validated vevs. destruct (SHA r) as [sha|].
    - rewrite (surjective_pairing (validateDownload E sha (URL r) dl w)).
      now rewrite validateDownload_world.
    - rewrite app_nil_r. now destruct w. }
  rewrite Hv in H. clear Hv.
  unfold os_Rename, quarantineFileName in *. fold dl in H |- *. simpl in H.
  rewrite Hc in H.
  destruct validated as [[]|verr].
  - destruct (rename_fault E dl (CacheFilename (URL r))); inv H; simpl; auto.
    now rewrite <- app_assoc.
  - destruct (rename_fault E dl (dl +:+ ".invalid")); inv H; simpl; auto.
    now rewrite <- app_assoc.
Qed.

(** *** Commit atomicity *)

Lemma rename_leaves_committed url dst :
  dst <> CacheFilename url ->
  changes_file (CacheFilename url)
    (EvRename (cacheDownloadingFileName url) dst) = false.
Proof.
  intros Hd. simpl. rewrite !eqb_neq_false; auto.
  apply committed_neq_downloading.
Qed.

(** C1. Commit atomicity: whatever the surroundings do, an attempt that
    ends in an error leaves the committed path as it found it and records
    no event that changes it; an attempt that succeeds has streamed the
    whole body into the in-progress file, has validated it when a checksum
    reference is present, and changes the committed path by one event
    only, its last: the rename of the in-progress file. *)
Theorem C1_commit_atomicity (E : Env) (r : Request) (w : World) :
  let committed := CacheFilename (URL r) in
  let dl := cacheDownloadingFileName (URL r) in
  let out := downloadFile E r w in
  exists evs,
    log (snd out) = log w ++ evs /\
    match fst out with
    | Err _ =>
        files (snd out) !! committed = files w !! committed /\
        Forall (fun ev => changes_file committed ev = false) evs
    | Ok _ =>
        exists w1 c evs0,
          stream E r w = (Ok tt, w1) /\
          files w1 !! dl = Some c /\
          (forall sha, SHA r = Some sha ->
             validate E sha (URL r) dl c = None) /\
          evs = evs0 ++ [EvRename dl committed] /\
          Forall (fun ev => changes_file committed ev = false) evs0 /\
          files (snd out) !! committed = Some c
    end.
Proof.
  intros committed dl out. subst out.
  destruct (downloadFile E r w) as [res w'] eqn:H. simpl.
  unfold downloadFile in H.
  pose proof (committed_neq_downloading (URL r)) as Hcd.
  pose proof (committed_neq_quarantine (URL r)) as Hcq.
  fold committed dl in Hcd. fold committed in Hcq.
  apply bind_inv in H as [([] & w1 & Hs & Hf) | (e & Hs & ->)].
  2:{ apply stream_trace in Hs as (F & _ & evs & L & P & _).
      exists evs. split; [exact L |]. split; [now apply F | now apply P]. }
  pose proof Hs as Hs'.
  apply stream_trace in Hs as (F & S & evs & L & P & _).
  destruct (S eq_refl) as [c Hc]. fold dl in Hc.
  pose proof (finish_spec _ _ _ _ _ _ Hf Hc) as Hfin. fold dl committed in Hfin.
  cbv zeta in Hfin.
  set (vevs := match SHA r with
               | Some _ => [EvValidate (URL r) dl]
               | None => []
               end) in *.
  assert (Hvevs : Forall (fun ev => changes_file committed ev = false) vevs).
  { subst vevs. destruct (SHA r); repeat constructor. }
  destruct (match SHA r with
            | Some sha => fst (validateDownload E sha (URL r) dl w1)
            | None => Ok tt
            end) as [[]|verr] eqn:Hval.
  - destruct (rename_fault E dl committed) as [e|].
    + destruct Hfin as (-> & Hfs & Hl).
      exists (evs ++ vevs). split; [rewrite Hl, L; now rewrite app_assoc |].
      split; [rewrite Hfs; now apply F |].
      apply Forall_app. split; [now apply P | exact Hvevs].
    + destruct Hfin as (-> & Hfs & Hl).
      exists (evs ++ vevs ++ [EvRename dl committed]).
      split; [rewrite Hl, L; now rewrite <- !app_assoc |].
      exists w1, c, (evs ++ vevs). repeat split; auto.
      * intros sha Hsha. rewrite Hsha in Hval.
        unfold validateDownload, contents in Hval. simpl in Hval.
        rewrite Hc in Hval. simpl in Hval.
        now destruct (validate E sha (URL r) dl c).
      * now rewrite <- !app_assoc.
      * apply Forall_app. split; [now apply P | exact Hvevs].
      * rewrite Hfs. apply lookup_insert_eq.
  - destruct Hfin as (-> & Hfin).
    destruct (rename_fault E dl (quarantineFileName (URL r))) as [e|].
    + destruct Hfin as (Hfs & Hl).
      exists (evs ++ vevs). split; [rewrite Hl, L; now rewrite app_assoc |].
      split; [rewrite Hfs; now apply F |].
      apply Forall_app. split; [now apply P | exact Hvevs].
    + destruct Hfin as (Hfs & Hl).
      exists (evs ++ vevs ++ [EvRename dl (quarantineFileName (URL r))]).
      split; [rewrite Hl, L; now rewrite <- !app_assoc |].
      split.
      * rewrite Hfs, lookup_insert_ne, lookup_delete_ne
          by (symmetry; assumption).
        now apply F.
      * apply Forall_app. split; [now apply P |].
        apply Forall_app. split; [exact Hvevs |].
        constructor; [| constructor].
        apply rename_leaves_committed. symmetry; assumption.
Qed.

(** *** Checksum enforcement *)

Lemma hasCache_lookup url w :
  hasCache url w = bool_decide (is_Some (files w !! CacheFilename url)).
Proof.
  unfold hasCache, os_Stat. destruct (files w !! CacheFilename url) eqn:H.
  - symmetry. apply bool_decide_eq_true. eauto.
  - symmetry. apply bool_decide_eq_false. intros [? ?]. discriminate.
Qed.

Lemma hasCache_same url w w' :
  files w' !! CacheFilename url = files w !! CacheFilename url ->
  hasCache url w' = hasCache url w.
Proof. unfold hasCache, os_Stat. now intros ->. Qed.

(** C2. Checksum enforcement: when the body has been streamed and the
    validator rejects the downloaded bytes against the checksum reference
    of the request (the expected digest does not match), the attempt
    returns the validation error, the committed path is left as it was
    (so no committed entry appears), and the in-progress file is moved to
    the quarantine name; when that move fails its error is dropped: the
    result is the same validation error and the file stays under the
    in-progress name. *)
Theorem C2_checksum_enforcement (E : Env) (r : Request) (sha : SHA_ref)
    (w w1 : World) (verr : error) :
  let committed := CacheFilename (URL r) in
  let dl := cacheDownloadingFileName (URL r) in
  let quarantine := quarantineFileName (URL r) in
  SHA r = Some sha ->
  stream E r w = (Ok tt, w1) ->
  validate E sha (URL r) dl (contents w1 dl) = Some verr ->
  let out := downloadFile E r w in
  fst out = Err (Wrap ("error validating SHA sum for '"
                       +:+ path_Base (URL r) +:+ "'") verr) /\
  files (snd out) !! committed = files w !! committed /\
  hasCache (URL r) (snd out) = hasCache (URL r) w /\
  match rename_fault E dl quarantine with
  | None =>
      files (snd out) !! quarantine = Some (contents w1 dl) /\
      files (snd out) !! dl = None /\
      log (snd out)
      = log w1 ++ [EvValidate (URL r) dl; EvRename dl quarantine]
  | Some _ =>
      files (snd out) = files w1 /\
      log (snd out) = log w1 ++ [EvValidate (URL r) dl]
  end.
Proof.
  intros committed dl quarantine Hsha Hs Hv out. subst out.
  pose proof (committed_neq_downloading (URL r)) as Hcd.
  pose proof (committed_neq_quarantine (URL r)) as Hcq.
  pose proof (downloading_neq_quarantine (URL r)) as Hdq.
  fold committed dl in Hcd. fold committed quarantine in Hcq.
  fold dl quarantine in Hdq.
  destruct (downloadFile E r w) as [res w'] eqn:H. simpl.
  unfold downloadFile, bind in H. rewrite Hs in H.
  apply stream_trace in Hs as (F & S & _).
  destruct (S eq_refl) as [c Hc]. fold dl in Hc.
  assert (Hcont : contents w1 dl = c) by (unfold contents; now rewrite Hc).
  rewrite Hcont in *.
  pose proof (finish_spec _ _ _ _ _ _ H Hc) as Hfin.
  fold dl committed quarantine in Hfin. cbv zeta in Hfin.
  rewrite Hsha in Hfin. unfold validateDownload in Hfin. simpl in Hfin.
  rewrite Hcont, Hv in Hfin. destruct Hfin as (-> & Hfin).
  split; [reflexivity |].
  assert (Hsame : files w' !! committed = files w !! committed).
  { destruct (rename_fault E dl quarantine).
    - destruct Hfin as [-> _]. now apply F.
    - destruct Hfin as [-> _].
      rewrite lookup_insert_ne, lookup_delete_ne by (symmetry; assumption).
      now apply F. }
  split; [exact Hsame |]. split; [now apply hasCache_same |].
  destruct (rename_fault E dl quarantine).
  - exact Hfin.
  - destruct Hfin as [-> Hl]. split; [apply lookup_insert_eq |].
    split; [| exact Hl].
    rewrite lookup_insert_ne by (symmetry; assumption). apply lookup_delete_eq.
Qed.

(** *** Cache hits *)

Lemma transfers_validation_rename (sha : option SHA_ref) url dl dst :
  transfers (match sha with
             | Some _ => [EvValidate url dl]
             | None => []
             end ++ [EvRename dl dst]) = 0%nat.
Proof. now destruct sha. Qed.

(** A successful attempt leaves a file at the committed path and has
    made exactly one transfer. *)
Lemma downloadFile_ok E r w u w' :
  downloadFile E r w = (Ok u, w') ->
  is_Some (files w' !! CacheFilename (URL r)) /\
  exists evs, log w' = log w ++ evs /\ transfers evs = 1%nat.
Proof.
  intros H. unfold downloadFile in H.
  apply bind_inv in H as [([] & w1 & Hs & Hf) | (e & _ & ?)]; [| discriminate].
  apply stream_trace in Hs as (_ & S & evs & L & _ & _ & _ & T).
  destruct (S eq_refl) as [c Hc].
  pose proof (finish_spec _ _ _ _ _ _ Hf Hc) as Hfin. cbv zeta in Hfin.
  destruct (match SHA r with
            | Some sha => fst (validateDownload E sha (URL r)
                                 (cacheDownloadingFileName (URL r)) w1)
            | None => Ok tt
            end) as [[]|verr]; [| destruct Hfin; discriminate].
  destruct (rename_fault E _ _); [destruct Hfin; discriminate |].
  destruct Hfin as (_ & Hfs & Hl). split.
  - rewrite Hfs, lookup_insert_eq. eauto.
  - eexists. split; [rewrite Hl, L; now rewrite <- app_assoc |].
    now rewrite transfers_app, transfers_validation_rename, T.
Qed.

Lemma Download_hit E r w :
  hasCache (URL r) w = true ->
  Download E r w = (Ok (CacheFilename (URL r)), w).
Proof. unfold Download. now intros ->. Qed.

(** C3. Idempotent cache hit: when a file exists at the committed path,
    [Download] returns that path and leaves the world, and so the log of
    transfers and validations, exactly as it was; hence after a first
    call that succeeds, a second call for the same URL returns the same
    path with nothing done, and the two calls together have made exactly
    one transfer when the first one missed the cache (none when it
    hit). *)
Theorem C3_idempotent_cache_hit (E : Env) (r : Request) (w : World) :
  (hasCache (URL r) w = true ->
   Download E r w = (Ok (CacheFilename (URL r)), w)) /\
  (forall (E2 : Env) (r2 : Request) (p : string) (w1 : World),
     URL r2 = URL r ->
     Download E r w = (Ok p, w1) ->
     p = CacheFilename (URL r) /\
     Download E2 r2 w1 = (Ok p, w1) /\
     exists evs,
       log (snd (Download E2 r2 w1)) = log w ++ evs /\
       transfers evs = if hasCache (URL r) w then 0%nat else 1%nat).
Proof.
  split; [apply Download_hit |].
  intros E2 r2 p w1 Hurl H. unfold Download in H.
  destruct (hasCache (URL r) w) eqn:Hh; simpl in H.
  - inv H. rewrite <- Hurl. rewrite Download_hit by (now rewrite Hurl).
    repeat split. exists []. now rewrite app_nil_r.
  - destruct (downloadFile E r w) as [[u|e] w2] eqn:Hd; inv H.
    apply downloadFile_ok in Hd as [Hsome (evs & L & T)].
    assert (Hh1 : hasCache (URL r2) w1 = true).
    { rewrite Hurl, hasCache_lookup. now apply bool_decide_eq_true. }
    rewrite <- Hurl at 2 3. rewrite Download_hit by exact Hh1.
    rewrite Hurl. repeat split. exists evs. auto.
Qed.

(** *** The 416 response *)

(** What a 416 does, for every attempt that receives one: the
    in-progress file is cut to zero length and the current size reset to
    0, nothing of the body is written, and the attempt then ends with the
    unexpected-status error, since the check of lines 150-154 has no
    exemption for the status that lines 139-148 have just handled. When
    cutting the file fails, the attempt ends with that error instead and
    the file is left as it was. *)
Theorem C4_range_not_satisfiable (E : Env) (r : Request) (w : World)
    (f : File) (L : Z) (w1 : World) (resp : Response) (w2 : World) :
  let dl := cacheDownloadingFileName (URL r) in
  prepare E r w = (Ok (f, L), w1) ->
  fetch E r L w1 = (Ok resp, w2) ->
  StatusCode resp = StatusRequestedRangeNotSatisfiable ->
  match truncate_fault E with
  | None =>
      let w3 := emit (EvTruncate dl 0)
                     (set_files (<[dl := []]> (files w2)) w2) in
      restart E f resp L w2 = (Ok 0, w3) /\
      files w3 !! dl = Some [] /\
      downloadFile E r w = (Err (New "unexpected status code: 416"), w3) /\
      log (snd (downloadFile E r w)) = log w2 ++ [EvTruncate dl 0]
  | Some e =>
      downloadFile E r w = (Err (Wrap "error truncating file" e), w2)
  end.
Proof.
  intros dl Hp Hf Hst.
  pose proof (prepare_spec _ _ _ _ _ Hp) as [_ Hpf].
  destruct (Hpf _ _ eq_refl) as (-> & _ & _). fold dl in Hp |- *.
  unfold downloadFile, stream, bind. rewrite Hp, Hf.
  unfold restart, check_status, bind, wrapping, File_Truncate, ret.
  rewrite Hst. simpl.
  destruct (truncate_fault E) as [e|]; [reflexivity |].
  simpl. rewrite lookup_insert_eq. auto.
Qed.

(** The size reset after a 416 is never read: whatever would follow
    the status check, and it is all that reads the current size, is not
    run when the status is 416. *)
Lemma reset_after_416_is_never_read {A : Type} (E : Env) (f : File)
    (resp : Response) (L : Z) (k1 k2 : Z -> M A) (w : World) :
  StatusCode resp = StatusRequestedRangeNotSatisfiable ->
  bind (restart E f resp L)
    (fun L' => bind (check_status resp) (fun _ => k1 L')) w
  = bind (restart E f resp L)
      (fun L' => bind (check_status resp) (fun _ => k2 L')) w.
Proof.
  intros Hst. unfold bind at 1 3.
  destruct (restart E f resp L w) as [[L'|e] w1]; [| reflexivity].
  unfold bind, check_status. rewrite Hst. reflexivity.
Qed.

(** *** Local paths *)

(** C6. Local-path short-circuit: for a URL that starts with [/],
    [DownloadToGuest] runs the guest's copy command once, with the URL
    itself as source and the destination as target, and returns its
    result; no file of the host changes and the only event is that one
    command, so there is no transfer and the cache is not touched. *)
Theorem C6_local_path_short_circuit (E : Env) (r : Request)
    (filename : string) (w : World) :
  HasPrefix_slash (URL r) = true ->
  let out := DownloadToGuest E r filename w in
  fst out = match guest_RunQuiet E ["cp"; URL r; filename] with
            | Some err => Err err
            | None => Ok tt
            end /\
  files (snd out) = files w /\
  log (snd out) = log w ++ [EvGuestRun ["cp"; URL r; filename]] /\
  transfers (log (snd out)) = transfers (log w).
Proof.
  intros Hp out. subst out. unfold DownloadToGuest. rewrite Hp.
  unfold guest_Run. simpl. repeat split.
  rewrite transfers_app. unfold transfers at 2. simpl. lia.
Qed.

(** C10. For a URL that starts with [/] the checksum reference plays no
    part: whatever it is, present or absent, [DownloadToGuest] returns
    the same result and the same world, and no validation is recorded. *)
Theorem C10_local_path_ignores_checksum (E : Env) (url : string)
    (sha1 sha2 : option SHA_ref) (filename : string) (w : World) :
  HasPrefix_slash url = true ->
  DownloadToGuest E {| URL := url; SHA := sha1 |} filename w
  = DownloadToGuest E {| URL := url; SHA := sha2 |} filename w /\
  List.filter is_validation
    (log (snd (DownloadToGuest E {| URL := url; SHA := sha1 |} filename w)))
  = List.filter is_validation (log w).
Proof.
  intros Hp. unfold DownloadToGuest. simpl. rewrite Hp.
  split; [reflexivity |]. unfold guest_Run. simpl.
  rewrite List.filter_app. simpl. now rewrite app_nil_r.
Qed.

(** *** The progress meter *)

Lemma wrap64_in_range (z : Z) : MinInt64 <= z <= MaxInt64 -> wrap64 z = z.
Proof.
  unfold wrap64, MinInt64, MaxInt64. intros H.
  rewrite Z.mod_small; lia.
Qed.

(** C9. [Progress.Write] always returns [(len(b), nil)] and adds
    [len(b)] to [Current] in [int64] arithmetic, which is the exact sum
    whenever that sum is an [int64]; it does so whether or not the
    throttle lets the call print, and [Total] is never changed. *)
Theorem C9_progress_write_total_exact (E : Env) (p : Progress)
    (b : list Byte.byte) (w : World) :
  let out := Write E p b w in
  let p' := fst (fst out) in
  snd (fst out) = (len b, None) /\
  Current p' = int64_add (Current p) (len b) /\
  Total p' = Total p /\
  (log (snd out) = log w \/
   log (snd out)
   = log w ++ [EvPrint (carriage_return +:+ "downloading ... "
                        +:+ terminal.Progress (Current p') (Total p')
                        +:+ " ")]) /\
  (MinInt64 <= Current p -> Current p + len b <= MaxInt64 ->
   Current p' = Current p + len b).
Proof.
  intros out p'. subst p' out.
  destruct (Write_result E p b w) as (p1 & w1 & -> & Hc & Ht & _ & Hl).
  simpl. split; [reflexivity |]. split; [exact Hc |]. split; [exact Ht |].
  split; [exact Hl |].
  intros Hlo Hhi. rewrite Hc. apply wrap64_in_range.
  unfold len in *. lia.
Qed.

(** *** Quarantine *)

(** An attempt whose stream succeeds, whose validation fails and whose
    quarantine rename works ends with the file under the quarantine
    name and the in-progress name free. *)
Lemma quarantined E r sha w w1 verr :
  let dl := cacheDownloadingFileName (URL r) in
  let quarantine := quarantineFileName (URL r) in
  SHA r = Some sha ->
  stream E r w = (Ok tt, w1) ->
  fst (validateDownload E sha (URL r) dl w1) = Err verr ->
  rename_fault E dl quarantine = None ->
  files (snd (downloadFile E r w))
  = <[quarantine := contents w1 dl]> (delete dl (files w1)).
Proof.
  intros dl quarantine Hsha Hs Hv Hr.
  destruct (downloadFile E r w) as [res w'] eqn:H. simpl.
  unfold downloadFile, bind in H. rewrite Hs in H.
  apply stream_trace in Hs as (_ & S & _).
  destruct (S eq_refl) as [c Hc]. fold dl in Hc.
  pose proof (finish_spec _ _ _ _ _ _ H Hc) as Hfin.
  fold dl quarantine in Hfin. cbv zeta in Hfin.
  rewrite Hsha, Hv, Hr in Hfin. destruct Hfin as (_ & -> & _).
  unfold contents. now rewrite Hc.
Qed.

(** C7. Quarantine invariant: the cache-hit check reads the committed
    path only, so a file at the quarantine name never makes it answer
    yes; and after an attempt has moved a file that failed validation to
    the quarantine name, the check answers as before that attempt, and a
    later attempt for the same URL finds no partial file: it creates an
    empty in-progress file at the same temporary name, reads its length
    as 0 and sends its request without a [Range] header. *)
Theorem C7_quarantine_invariant (E : Env) (r : Request) (sha : SHA_ref)
    (w w1 : World) (verr : error) :
  let committed := CacheFilename (URL r) in
  let dl := cacheDownloadingFileName (URL r) in
  let quarantine := quarantineFileName (URL r) in
  SHA r = Some sha ->
  stream E r w = (Ok tt, w1) ->
  validate E sha (URL r) dl (contents w1 dl) = Some verr ->
  rename_fault E dl quarantine = None ->
  let w' := snd (downloadFile E r w) in
  files w' !! quarantine = Some (contents w1 dl) /\
  (forall wa wb : World,
     files wa !! committed = files wb !! committed ->
     hasCache (URL r) wa = hasCache (URL r) wb) /\
  (forall (wa : World) (c : list Byte.byte),
     hasCache (URL r) (set_files (<[quarantine := c]> (files wa)) wa)
     = hasCache (URL r) wa) /\
  hasCache (URL r) w' = hasCache (URL r) w /\
  (forall (E2 : Env) (r2 : Request) (f : File) (L : Z) (w2 : World),
     URL r2 = URL r ->
     prepare E2 r2 w' = (Ok (f, L), w2) ->
     f = {| Name := dl; offset := 0 |} /\
     L = 0 /\
     files w2 !! dl = Some [] /\
     forall res w3,
       fetch E2 r2 L w2 = (res, w3) ->
       w3 = w2 \/
       w3 = emit (EvHTTP {| Method := "GET"; ReqURL := URL r;
                            RangeHeader := None |}) w2).
Proof.
  intros committed dl quarantine Hsha Hs Hv Hr w'.
  pose proof (committed_neq_downloading (URL r)) as Hcd.
  pose proof (committed_neq_quarantine (URL r)) as Hcq.
  pose proof (downloading_neq_quarantine (URL r)) as Hdq.
  fold committed dl in Hcd. fold committed quarantine in Hcq.
  fold dl quarantine in Hdq.
  assert (Hv' : fst (validateDownload E sha (URL r) dl w1) = Err verr)
    by (unfold validateDownload; simpl; now rewrite Hv).
  pose proof (quarantined _ _ _ _ _ _ Hsha Hs Hv' Hr) as Hfs.
  fold dl quarantine w' in Hfs.
  assert (Hdl : files w' !! dl = None).
  { rewrite Hfs, lookup_insert_ne by (symmetry; assumption).
    apply lookup_delete_eq. }
  split; [rewrite Hfs; apply lookup_insert_eq |].
  split; [intros wa wb; apply hasCache_same |].
  split.
  { intros wa c. apply hasCache_same. simpl.
    apply lookup_insert_ne. symmetry; assumption. }
  split.
  { apply hasCache_same. fold committed.
    rewrite Hfs, lookup_insert_ne, lookup_delete_ne by (symmetry; assumption).
    apply stream_trace in Hs as (F & _). now apply F. }
  intros E2 r2 f L w2 Hurl Hp.
  apply prepare_spec in Hp as [_ Hp]. rewrite Hurl in Hp. fold dl in Hp.
  destruct (Hp _ _ eq_refl) as (-> & Hc & ->).
  assert (Hcont : contents w' dl = []) by (unfold contents; now rewrite Hdl).
  rewrite Hcont in *. repeat split; auto.
  intros res w3 Hf. apply fetch_spec in Hf as [[-> _] | (req & -> & -> & _)].
  - now left.
  - right. rewrite Hurl. reflexivity.
Qed.

(** ** What an attempt writes *)

(** *** Writing at the cursor *)

Lemma write_at_inside (old : list Byte.byte) (off : nat)
    (data : list Byte.byte) :
  (off <= length old)%nat ->
  write_at old off data = take off old ++ data ++ drop (off + length data) old.
Proof.
  intros H. unfold write_at.
  replace (off - length old)%nat with 0%nat by lia. reflexivity.
Qed.

Lemma write_at_length (old : list Byte.byte) off data :
  (off <= length old)%nat ->
  length (write_at old off data) = Nat.max (length old) (off + length data).
Proof.
  intros H. rewrite write_at_inside by exact H.
  rewrite !length_app, length_take, length_drop. lia.
Qed.

Lemma write_at_write_at (old : list Byte.byte) off a b :
  (off <= length old)%nat ->
  write_at (write_at old off a) (off + length a) b = write_at old off (a ++ b).
Proof.
  intros H.
  rewrite (write_at_inside (write_at old off a))
    by (rewrite write_at_length by exact H; lia).
  rewrite !write_at_inside by exact H.
  assert (Ht : length (take off old ++ a) = (off + length a)%nat)
    by (rewrite length_app, length_take; lia).
  rewrite (app_assoc (take off old) a).
  rewrite take_app_length' by (now rewrite Ht).
  rewrite drop_app_ge by (rewrite Ht; lia).
  rewrite Ht, drop_drop, length_app, <- !app_assoc.
  do 4 f_equal. lia.
Qed.

Lemma io_Copy_content E chunks eof : forall k dst p w res w' old,
  io_Copy E k dst p chunks eof w = (res, w') ->
  files w !! Name dst = Some old ->
  (offset dst <= length old)%nat ->
  exists data rest,
    concat chunks = data ++ rest /\
    files w' !! Name dst = Some (write_at old (offset dst) data) /\
    (res = Ok tt -> rest = [] /\ eof = None).
Proof.
  induction chunks as [|c chunks IH]; intros k dst p w res w' old H Hold Hoff.
  - simpl in H. exists [], []. split; [reflexivity |]. split.
    + rewrite write_at_inside by exact Hoff. simpl.
      rewrite Nat.add_0_r, take_drop. destruct eof; now inv H.
    + intros ->. destruct eof; inv H. auto.
  - simpl in H. destruct c as [|b c]; [now apply (IH k dst p w res w' old) |].
    destruct (Write_result E p (b :: c) w) as (p1 & w1 & HW & _ & _ & Hf & _).
    rewrite HW in H.
    unfold File_Write in H. unfold contents in H. rewrite Hf, Hold in H.
    simpl in H.
    destruct (write_fault E k) as [[n err]|].
    + inv H.
      exists (take n (b :: c)), (drop n (b :: c) ++ concat chunks).
      split; [simpl concat; now rewrite app_assoc, take_drop |].
      split; [simpl; now rewrite lookup_insert_eq | discriminate].
    + apply (IH _ _ _ _ _ _ (write_at old (offset dst) (b :: c))) in H
        as (data & rest & Hcat & Hfile & Hres).
      * exists ((b :: c) ++ data), rest.
        split; [simpl concat; rewrite Hcat; now rewrite app_assoc |].
        split; [| exact Hres].
        simpl in Hfile. rewrite Hfile. f_equal.
        now apply write_at_write_at.
      * simpl. now rewrite lookup_insert_eq.
      * rewrite write_at_length by exact Hoff. simpl. lia.
Qed.

(** *** The in-progress file after the streaming part *)

Lemma prepare_contents E r w res w' :
  prepare E r w = (res, w') ->
  contents w' (cacheDownloadingFileName (URL r))
  = contents w (cacheDownloadingFileName (URL r)).
Proof.
  unfold prepare, bind, wrapping, os_MkdirAll, os_OpenFile, File_Stat_Size,
    ret, contents.
  destruct (mkdirall_fault E); [intros H; now inv H |].
  destruct (openfile_fault E); [intros H; now inv H |]. simpl.
  destruct (files w !! cacheDownloadingFileName (URL r)) eqn:Hc; simpl;
    destruct (stat_fault E); intros H; inv H; simpl;
    rewrite ?Hc, ?lookup_insert_eq; reflexivity.
Qed.

(** The in-progress file after the streaming part of an attempt that
    found [prior] in it: untouched when the attempt failed before
    anything was written; empty after a 416; and otherwise [prior]
    overwritten, from its end on a 206 and from its start on any other
    2xx, by the part of the body that was received, which is all of the
    body when the part succeeds. *)
Lemma stream_file E r w res w' :
  stream E r w = (res, w') ->
  let dl := cacheDownloadingFileName (URL r) in
  let prior := contents w dl in
  let req := {| Method := "GET"; ReqURL := URL r;
                RangeHeader := if 0 <? len prior
                               then Some ("bytes=" +:+ fmt_d (len prior)
                                          +:+ "-")
                               else None |} in
  (contents w' dl = prior /\ exists e, res = Err e) \/
  (exists resp,
      client_do E req = Ok resp /\
      ((StatusCode resp = StatusRequestedRangeNotSatisfiable /\
        files w' !! dl = Some [] /\
        res = Err (New "unexpected status code: 416")) \/
       (200 <= StatusCode resp < 300 /\
        exists data rest,
          concat (Body resp) = data ++ rest /\
          files w' !! dl
          = Some (write_at prior
                    (if StatusCode resp =? StatusPartialContent
                     then length prior else 0%nat) data) /\
          (res = Ok tt -> rest = [] /\ BodyErr resp = None)))).
Proof.
  intros H dl prior req. unfold stream in H.
  apply bind_inv in H as [([f L] & w1 & H1 & H) | (e & H1 & ->)].
  2:{ left. apply prepare_contents in H1. eauto. }
  pose proof (prepare_contents _ _ _ _ _ H1) as Hpc. fold dl prior in Hpc.
  apply prepare_spec in H1 as [_ Hp]. fold dl in Hp.
  destruct (Hp _ _ eq_refl) as (-> & Hc & ->). clear Hp. fold prior in Hc.
  apply bind_inv in H as [(resp & w2 & H2 & H) | (e & H2 & ->)].
  2:{ left. apply fetch_spec in H2 as [[-> _] | (r0 & _ & -> & _)]; eauto. }
  apply fetch_spec in H2 as [[_ [e ?]] | (r0 & -> & -> & Hdo)];
    [discriminate |].
  fold prior req in Hdo.
  unfold restart in H.
  destruct (StatusCode resp =? StatusRequestedRangeNotSatisfiable) eqn:H416.
  - apply Z.eqb_eq in H416.
    apply bind_inv in H as [(L' & w3 & H3 & H) | (e & H3 & ->)].
    + apply bind_inv in H3 as [(u & w4 & H4 & H3) | (e & H4 & ?)];
        [| discriminate].
      apply wrapping_ok in H4. apply File_Truncate_spec in H4 as [_ [Ht _]].
      inv H3. unfold check_status, bind in H. rewrite H416 in H. simpl in H.
      inv H. right. exists resp. split; [exact Hdo |]. left. auto.
    + apply bind_inv in H3 as [(u & w4 & _ & H3) | (e' & H4 & ?)];
        [discriminate |].
      apply wrapping_err in H4 as (? & H4 & _).
      apply File_Truncate_spec in H4 as [_ ->]. left. eauto.
  - apply Z.eqb_neq in H416.
    unfold bind at 1 in H. unfold ret at 1 in H.
    apply bind_inv in H as [(u & w4 & H4 & H) | (e & H4 & ->)].
    2:{ apply check_status_spec in H4 as [-> _]. left. eauto. }
    apply check_status_spec in H4 as [-> Hst].
    apply bind_inv in H as [(f' & w5 & H5 & H) | (e & H5 & ->)].
    2:{ apply position_spec in H5 as [-> _]. left. eauto. }
    apply position_spec in H5 as [-> Hpos].
    destruct (Hpos _ eq_refl) as [Hn Ho]. simpl in Hn.
    unfold contents in Ho. simpl in Ho. rewrite Hc in Ho. simpl in Ho.
    right. exists resp. split; [exact Hdo |]. right. split; [exact Hst |].
    unfold copy_stream in H.
    assert (Hoff : (offset f' <= length prior)%nat).
    { rewrite Ho. destruct (_ =? _); lia. }
    destruct res as [[]|e].
    + apply wrapping_ok in H.
      eapply io_Copy_content in H as (data & rest & Hcat & Hfile & Hres);
        [| rewrite Hn; exact Hc | exact Hoff].
      exists data, rest. rewrite Hn, Ho in Hfile. auto.
    + apply wrapping_err in H as (? & H & _).
      eapply io_Copy_content in H as (data & rest & Hcat & Hfile & Hres);
        [| rewrite Hn; exact Hc | exact Hoff].
      exists data, rest. rewrite Hn, Ho in Hfile.
      split; [exact Hcat |]. split; [exact Hfile | discriminate].
Qed.

Lemma write_at_end (old data : list Byte.byte) :
  write_at old (length old) data = old ++ data.
Proof.
  rewrite write_at_inside by lia.
  rewrite firstn_all, drop_ge by lia. now rewrite app_nil_r.
Qed.

Lemma write_at_start (old data : list Byte.byte) :
  write_at old 0 data = data ++ drop (length data) old.
Proof. rewrite write_at_inside by lia. reflexivity. Qed.

(** A successful attempt: the origin answered 2xx, the whole body was
    received, the in-progress name is free again and the committed file
    is what the streaming part left in the in-progress file. *)
Lemma downloadFile_ok_content E r w w' :
  downloadFile E r w = (Ok tt, w') ->
  let dl := cacheDownloadingFileName (URL r) in
  let prior := contents w dl in
  let req := {| Method := "GET"; ReqURL := URL r;
                RangeHeader := if 0 <? len prior
                               then Some ("bytes=" +:+ fmt_d (len prior)
                                          +:+ "-")
                               else None |} in
  exists resp,
    client_do E req = Ok resp /\
    200 <= StatusCode resp < 300 /\
    BodyErr resp = None /\
    files w' !! dl = None /\
    files w' !! CacheFilename (URL r)
    = Some (write_at prior
              (if StatusCode resp =? StatusPartialContent
               then length prior else 0%nat)
              (concat (Body resp))).
Proof.
  intros H dl prior req. unfold downloadFile in H.
  apply bind_inv in H as [([] & w1 & Hs & Hf) | (e & _ & ?)]; [| discriminate].
  apply stream_file in Hs. fold dl prior req in Hs.
  destruct Hs as [[_ [e ?]] | (resp & Hdo & [(_ & _ & ?) | Hs])];
    try discriminate.
  destruct Hs as (Hst & data & rest & Hcat & Hfile & Hres).
  destruct (Hres eq_refl) as [-> Hb]. rewrite app_nil_r in Hcat. subst data.
  pose proof (finish_spec _ _ _ _ _ _ Hf Hfile) as Hfin. cbv zeta in Hfin.
  fold dl in Hfin.
  destruct (match SHA r with
            | Some sha => fst (validateDownload E sha (URL r) dl w1)
            | None => Ok tt
            end) as [[]|verr]; [| destruct Hfin; discriminate].
  destruct (rename_fault E _ _); [destruct Hfin; discriminate |].
  destruct Hfin as (_ & Hfs & _).
  exists resp. split; [exact Hdo |]. split; [exact Hst |]. split; [exact Hb |].
  rewrite Hfs. split.
  - rewrite lookup_insert_ne by apply committed_neq_downloading.
    apply lookup_delete_eq.
  - apply lookup_insert_eq.
Qed.

(** X1. Resume correctness: when an attempt succeeds and the origin
    answered its request with 206, the committed file is the bytes that
    were in the in-progress file followed by the whole body, and the
    in-progress name is free again. *)
Theorem resume_appends_body (E : Env) (r : Request) (w w' : World)
    (resp : Response) :
  let dl := cacheDownloadingFileName (URL r) in
  let prior := contents w dl in
  downloadFile E r w = (Ok tt, w') ->
  client_do E {| Method := "GET"; ReqURL := URL r;
                 RangeHeader := if 0 <? len prior
                                then Some ("bytes=" +:+ fmt_d (len prior)
                                           +:+ "-")
                                else None |} = Ok resp ->
  StatusCode resp = StatusPartialContent ->
  files w' !! CacheFilename (URL r) = Some (prior ++ concat (Body resp)) /\
  files w' !! dl = None.
Proof.
  intros dl prior H Hdo Hst.
  apply downloadFile_ok_content in H as (resp' & Hdo' & _ & _ & Hdl & Hc).
  fold dl prior in Hdo', Hdl, Hc. rewrite Hdo in Hdo'. inv Hdo'.
  rewrite Hst in Hc. simpl in Hc. rewrite write_at_end in Hc. auto.
Qed.

(** X2. Full response: when an attempt succeeds and the origin answered
    with a 2xx other than 206, the committed file is the whole body
    followed by whatever of the earlier in-progress file lay beyond the
    length of the body; it is the body exactly when the body is at least
    as long as that file was. *)
Theorem full_response_overwrites_from_start (E : Env) (r : Request)
    (w w' : World) (resp : Response) :
  let dl := cacheDownloadingFileName (URL r) in
  let prior := contents w dl in
  let body := concat (Body resp) in
  downloadFile E r w = (Ok tt, w') ->
  client_do E {| Method := "GET"; ReqURL := URL r;
                 RangeHeader := if 0 <? len prior
                                then Some ("bytes=" +:+ fmt_d (len prior)
                                           +:+ "-")
                                else None |} = Ok resp ->
  StatusCode resp <> StatusPartialContent ->
  files w' !! CacheFilename (URL r)
  = Some (body ++ drop (length body) prior) /\
  ((length prior <= length body)%nat ->
   files w' !! CacheFilename (URL r) = Some body).
Proof.
  intros dl prior body H Hdo Hst.
  apply downloadFile_ok_content in H as (resp' & Hdo' & _ & _ & _ & Hc).
  fold dl prior in Hdo', Hc. rewrite Hdo in Hdo'. inv Hdo'.
  apply Z.eqb_neq in Hst. rewrite Hst in Hc. rewrite write_at_start in Hc.
  fold body in Hc. split; [exact Hc |].
  intros Hlen. rewrite Hc, drop_ge by exact Hlen. now rewrite app_nil_r.
Qed.

Lemma write_at_keeps (prior data : list Byte.byte) (off : nat) c :
  (off <= length prior)%nat ->
  c = write_at prior off data ->
  (length prior <= length c)%nat /\
  (off = length prior -> exists more, c = prior ++ more).
Proof.
  intros Hoff ->. split.
  - rewrite write_at_length by exact Hoff. lia.
  - intros ->. rewrite write_at_end. eauto.
Qed.

(** X3. What a failed attempt leaves for the next one: unless the
    origin answered 416, or validation failed (and the file was moved
    aside), the in-progress file is at least as long as the attempt
    found it, and when the origin answered 206 it still begins with the
    bytes it had. *)
Theorem failed_attempt_keeps_partial_file (E : Env) (r : Request)
    (w w' : World) (e : error) :
  let dl := cacheDownloadingFileName (URL r) in
  let prior := contents w dl in
  let req := {| Method := "GET"; ReqURL := URL r;
                RangeHeader := if 0 <? len prior
                               then Some ("bytes=" +:+ fmt_d (len prior)
                                          +:+ "-")
                               else None |} in
  downloadFile E r w = (Err e, w') ->
  (exists resp, client_do E req = Ok resp /\
                StatusCode resp = StatusRequestedRangeNotSatisfiable) \/
  (exists sha verr,
      SHA r = Some sha /\
      e = Wrap ("error validating SHA sum for '" +:+ path_Base (URL r)
                +:+ "'") verr) \/
  ((length prior <= length (contents w' dl))%nat /\
   forall resp,
     client_do E req = Ok resp ->
     StatusCode resp = StatusPartialContent ->
     exists more, contents w' dl = prior ++ more).
Proof.
  intros dl prior req H. unfold downloadFile in H.
  assert (Hkept : forall res w1,
            stream E r w = (res, w1) ->
            (exists resp,
                client_do E req = Ok resp /\
                StatusCode resp = StatusRequestedRangeNotSatisfiable) \/
            ((length prior <= length (contents w1 dl))%nat /\
             forall resp,
               client_do E req = Ok resp ->
               StatusCode resp = StatusPartialContent ->
               exists more, contents w1 dl = prior ++ more)).
  { intros res w1 Hs. apply stream_file in Hs. fold dl prior req in Hs.
    destruct Hs as [[-> _] | (resp & Hdo & [(H416 & _) | Hs])];
      [| | destruct Hs as (_ & data & rest & _ & Hfile & _)].
    - right. split; [lia |]. intros resp _ _. exists []. now rewrite app_nil_r.
    - left. eauto.
    - right.
      assert (Hcw : contents w1 dl
                    = write_at prior
                        (if StatusCode resp =? StatusPartialContent
                         then length prior else 0%nat) data)
        by (unfold contents; now rewrite Hfile).
      rewrite Hcw.
      destruct (StatusCode resp =? StatusPartialContent) eqn:H206.
      + destruct (write_at_keeps prior data (length prior) _
                    (Nat.le_refl _) eq_refl) as [Hlen Hpre].
        split; [exact Hlen |]. intros _ _ _. now apply Hpre.
      + destruct (write_at_keeps prior data 0 _ (Nat.le_0_l _) eq_refl)
          as [Hlen _].
        split; [exact Hlen |]. intros resp' Hdo' Hst.
        rewrite Hdo in Hdo'. inv Hdo'. apply Z.eqb_neq in H206. contradiction. }
  apply bind_inv in H as [([] & w1 & Hs & Hf) | (e' & Hs & He)].
  2:{ inv He. apply Hkept in Hs as [H416 | Hk]; auto. }
  pose proof (Hkept _ _ Hs) as Hk.
  apply stream_trace in Hs as (_ & S & _).
  destruct (S eq_refl) as [c Hc]. fold dl in Hc.
  pose proof (finish_spec _ _ _ _ _ _ Hf Hc) as Hfin. cbv zeta in Hfin.
  fold dl in Hfin.
  destruct (SHA r) as [sha|] eqn:Hsha.
  - destruct (fst (validateDownload E sha (URL r) dl w1)) as [[]|verr].
    + destruct (rename_fault E _ _); [| destruct Hfin; discriminate].
      destruct Hfin as (_ & Hfs & _).
      destruct Hk as [H416 | Hk]; [auto |].
      right. right. unfold contents in *. now rewrite Hfs.
    + destruct Hfin as [Hres _]. inv Hres. right. left. eauto.
  - destruct (rename_fault E _ _); [| destruct Hfin; discriminate].
    destruct Hfin as (_ & Hfs & _).
    destruct Hk as [H416 | Hk]; [auto |].
    right. right. unfold contents in *. now rewrite Hfs.
Qed.

(** ** What an attempt does to its surroundings *)

Lemma local_attempt_event dl committed quarantine url req ev :
  local_event dl ev -> attempt_event dl committed quarantine url req ev.
Proof. destruct ev; simpl; auto; contradiction. Qed.

Lemma attempt_event_no_guest dl committed quarantine url req ev :
  attempt_event dl committed quarantine url req ev -> is_guest_run ev = false.
Proof. destruct ev; simpl; auto; contradiction. Qed.

(** Everything an attempt records and changes. *)
Lemma downloadFile_trace E r w res w' :
  downloadFile E r w = (res, w') ->
  let dl := cacheDownloadingFileName (URL r) in
  let committed := CacheFilename (URL r) in
  let quarantine := quarantineFileName (URL r) in
  let prior := contents w dl in
  let req := {| Method := "GET"; ReqURL := URL r;
                RangeHeader := if 0 <? len prior
                               then Some ("bytes=" +:+ fmt_d (len prior)
                                          +:+ "-")
                               else None |} in
  (forall q, q <> dl -> q <> committed -> q <> quarantine ->
             files w' !! q = files w !! q) /\
  exists evs,
    log w' = log w ++ evs /\
    Forall (attempt_event dl committed quarantine (URL r) req) evs /\
    (transfers evs <= 1)%nat /\
    (res = Ok tt -> transfers evs = 1%nat).
Proof.
  intros H dl committed quarantine prior req. unfold downloadFile in H.
  move H at bottom.
  assert (Hstream : forall res1 w1,
            stream E r w = (res1, w1) ->
            (forall q, q <> dl -> files w1 !! q = files w !! q) /\
            exists evs,
              log w1 = log w ++ evs /\
              Forall (attempt_event dl committed quarantine (URL r) req) evs /\
              (transfers evs <= 1)%nat /\
              (res1 = Ok tt -> transfers evs = 1%nat)).
  { intros res1 w1 Hs.
    pose proof (stream_trace _ _ _ _ _ Hs) as Ht. cbv zeta in Ht.
    fold dl in Ht. destruct Ht as (F & _ & evs0 & L0 & _ & _ & T & T1).
    split; [exact F |]. exists evs0. split; [exact L0 |].
    split; [| split; assumption].
    apply stream_spec in Hs. fold dl prior req in Hs.
    destruct Hs as [[(_ & _ & evs & L & P) _] |
                    (w2 & rq & (_ & _ & evs1 & L1 & P1) & _ & -> &
                     (_ & _ & evs2 & L2 & P2) & _)].
    - rewrite L0 in L. apply app_inv_head in L. subst evs0.
      eapply Forall_impl; [exact P |]. apply local_attempt_event.
    - simpl in L2. rewrite L1, <- !app_assoc in L2. rewrite L0 in L2.
      apply app_inv_head in L2. subst evs0.
      apply Forall_app. split.
      + eapply Forall_impl; [exact P1 |]. apply local_attempt_event.
      + constructor; [reflexivity |].
        eapply Forall_impl; [exact P2 |]. apply local_attempt_event. }
  apply bind_inv in H as [([] & w1 & Hs & Hf) | (e & Hs & ->)].
  2:{ apply Hstream in Hs as (F & evs & L & P & T & _).
      split; [intros q Hq _ _; now apply F |].
      exists evs. repeat split; auto. discriminate. }
  pose proof (Hstream _ _ Hs) as (F & evs & L & P & _ & T).
  apply stream_trace in Hs as (_ & S & _).
  destruct (S eq_refl) as [c Hc]. fold dl in Hc.
  pose proof (finish_spec _ _ _ _ _ _ Hf Hc) as Hfin. cbv zeta in Hfin.
  fold dl committed quarantine in Hfin.
  set (vevs := match SHA r with
               | Some _ => [EvValidate (URL r) dl]
               | None => []
               end) in *.
  assert (Pv : Forall (attempt_event dl committed quarantine (URL r) req) vevs)
    by (subst vevs; destruct (SHA r); repeat constructor).
  assert (Tv : forall dst, transfers (vevs ++ [EvRename dl dst]) = 0%nat)
    by (intros dst; apply transfers_validation_rename).
  assert (Tv0 : transfers vevs = 0%nat) by (subst vevs; now destruct (SHA r)).
  specialize (T eq_refl).
  assert (Hdone : forall fs fevs,
            files w' = fs -> log w' = log w1 ++ fevs ->
            (forall q, q <> dl -> q <> committed -> q <> quarantine ->
                       fs !! q = files w1 !! q) ->
            Forall (attempt_event dl committed quarantine (URL r) req) fevs ->
            transfers fevs = 0%nat ->
            (forall q, q <> dl -> q <> committed -> q <> quarantine ->
                       files w' !! q = files w !! q) /\
            exists evs',
              log w' = log w ++ evs' /\
              Forall (attempt_event dl committed quarantine (URL r) req) evs' /\
              (transfers evs' <= 1)%nat /\
              (res = Ok tt -> transfers evs' = 1%nat)).
  { intros fs fevs Hfs Hl Hfr Pf Tf. split.
    - intros q H1 H2 H3. rewrite Hfs, Hfr, F; auto.
    - exists (evs ++ fevs). split; [rewrite Hl, L; now rewrite app_assoc |].
      split; [apply Forall_app; auto |].
      rewrite transfers_app, T, Tf. split; [lia | reflexivity]. }
  destruct (match SHA r with
            | Some sha => fst (validateDownload E sha (URL r) dl w1)
            | None => Ok tt
            end) as [[]|verr].
  - destruct (rename_fault E dl committed).
    + destruct Hfin as (_ & Hfs & Hl).
      apply (Hdone (files w1) vevs); auto.
    + destruct Hfin as (_ & Hfs & Hl).
      apply (Hdone _ (vevs ++ [EvRename dl committed]) Hfs Hl); auto.
      * intros q H1 H2 H3.
        now rewrite lookup_insert_ne, lookup_delete_ne by congruence.
      * apply Forall_app. split; [exact Pv |].
        constructor; [simpl; auto | constructor].
  - destruct Hfin as (_ & Hfin).
    destruct (rename_fault E dl quarantine).
    + destruct Hfin as (Hfs & Hl). apply (Hdone (files w1) vevs); auto.
    + destruct Hfin as (Hfs & Hl).
      apply (Hdone _ (vevs ++ [EvRename dl quarantine]) Hfs Hl); auto.
      * intros q H1 H2 H3.
        now rewrite lookup_insert_ne, lookup_delete_ne by congruence.
      * apply Forall_app. split; [exact Pv |].
        constructor; [simpl; auto | constructor].
Qed.

(** X4. The footprint of an attempt, whatever its outcome: of the
    files of the host it can only change the in-progress, the committed
    and the quarantine file of its URL; it records only events local to
    the in-progress file, its request, the validation of the in-progress
    file and the rename of that file to one of the other two names, and
    never a command in the guest; it sends at most one request, exactly
    one when it succeeds, and that request is a GET for the URL with
    [Range: bytes=L-] when the in-progress file held [L > 0] bytes and
    without a [Range] header otherwise. *)
Theorem attempt_footprint (E : Env) (r : Request) (w : World) :
  let dl := cacheDownloadingFileName (URL r) in
  let committed := CacheFilename (URL r) in
  let quarantine := quarantineFileName (URL r) in
  let prior := contents w dl in
  let req := {| Method := "GET"; ReqURL := URL r;
                RangeHeader := if 0 <? len prior
                               then Some ("bytes=" +:+ fmt_d (len prior)
                                          +:+ "-")
                               else None |} in
  let out := downloadFile E r w in
  (forall q, q <> dl -> q <> committed -> q <> quarantine ->
             files (snd out) !! q = files w !! q) /\
  exists evs,
    log (snd out) = log w ++ evs /\
    Forall (attempt_event dl committed quarantine (URL r) req) evs /\
    Forall (fun ev => is_guest_run ev = false) evs /\
    (transfers evs <= 1)%nat /\
    (fst out = Ok tt -> transfers evs = 1%nat).
Proof.
  intros dl committed quarantine prior req out. subst out.
  destruct (downloadFile E r w) as [res w'] eqn:H. simpl.
  apply downloadFile_trace in H as (F & evs & L & P & T & T1).
  split; [exact F |]. exists evs. split; [exact L |]. split; [exact P |].
  split; [| split; assumption].
  eapply Forall_impl; [exact P |]. apply attempt_event_no_guest.
Qed.

(** *** Attempts that reach the origin *)

Lemma prepare_ok E r w :
  mkdirall_fault E = None ->
  openfile_fault E = None ->
  stat_fault E = None ->
  let dl := cacheDownloadingFileName (URL r) in
  exists w1,
    prepare E r w
    = (Ok ({| Name := dl; offset := 0 |}, len (contents w dl)), w1) /\
    files w1 !! dl = Some (contents w dl) /\
    (forall q, q <> dl -> files w1 !! q = files w !! q).
Proof.
  intros Hm Ho Hs dl.
  destruct (prepare E r w) as [res w1] eqn:Hp. exists w1.
  pose proof (prepare_spec _ _ _ _ _ Hp) as Hspec. cbv zeta in Hspec.
  fold dl in Hspec. destruct Hspec as [(F & _ & evs & L & P) Hok].
  unfold prepare, bind, wrapping, os_MkdirAll, os_OpenFile, File_Stat_Size,
    ret in Hp.
  rewrite Hm, Ho in Hp. simpl in Hp. fold dl in Hp.
  assert (Hres : exists f L, res = Ok (f, L)).
  { destruct (files w !! dl); simpl in Hp; rewrite Hs in Hp; inv Hp; eauto. }
  destruct Hres as (f & L0 & ->).
  destruct (Hok _ _ eq_refl) as (-> & Hc & ->).
  split; [reflexivity |]. split; [exact Hc | exact F].
Qed.

Lemma fetch_ok E r L w resp :
  newrequest_fault E (URL r) = None ->
  let req := {| Method := "GET"; ReqURL := URL r;
                RangeHeader := if 0 <? L
                               then Some ("bytes=" +:+ fmt_d L +:+ "-")
                               else None |} in
  client_do E req = Ok resp ->
  fetch E r L w = (Ok resp, emit (EvHTTP req) w).
Proof.
  intros Hn req Hdo. subst req.
  unfold fetch, bind, wrapping, http_NewRequest, client_Do, set_Range.
  rewrite Hn. simpl. destruct (0 <? L); simpl in *; now rewrite Hdo.
Qed.

(** X5. An unexpected status: when nothing fails before the request and
    the origin answers with a status outside [200, 300) other than 416,
    the attempt ends with [unexpected status code: N] and the in-progress
    file holds exactly the bytes it held before (it exists, empty, when
    there was none); no other file changes. *)
Theorem unexpected_status_leaves_file (E : Env) (r : Request) (w : World)
    (resp : Response) :
  let dl := cacheDownloadingFileName (URL r) in
  let prior := contents w dl in
  mkdirall_fault E = None ->
  openfile_fault E = None ->
  stat_fault E = None ->
  newrequest_fault E (URL r) = None ->
  client_do E {| Method := "GET"; ReqURL := URL r;
                 RangeHeader := if 0 <? len prior
                                then Some ("bytes=" +:+ fmt_d (len prior)
                                           +:+ "-")
                                else None |} = Ok resp ->
  StatusCode resp < 200 \/ 300 <= StatusCode resp ->
  StatusCode resp <> StatusRequestedRangeNotSatisfiable ->
  let out := downloadFile E r w in
  fst out = Err (New ("unexpected status code: " +:+ fmt_d (StatusCode resp)))
  /\ files (snd out) !! dl = Some prior
  /\ forall q, q <> dl -> files (snd out) !! q = files w !! q.
Proof.
  intros dl prior Hm Ho Hs Hn Hdo Hst H416 out. subst out.
  destruct (prepare_ok E r w Hm Ho Hs) as (w1 & Hp & Hc & F).
  fold dl prior in Hp, Hc, F.
  pose proof (fetch_ok E r (len prior) w1 resp Hn Hdo) as Hf.
  unfold downloadFile, stream, bind. rewrite Hp, Hf.
  unfold restart, check_status, ret.
  apply Z.eqb_neq in H416. rewrite H416.
  assert (Hout : ((StatusCode resp <? 200) || (300 <=? StatusCode resp))
                 = true).
  { apply orb_true_iff. destruct Hst; [left | right]; lia. }
  rewrite Hout. simpl. auto.
Qed.


(** ** [Download] and [DownloadToGuest] *)

Lemma downloadFile_err_committed E r w e w' :
  downloadFile E r w = (Err e, w') ->
  files w' !! CacheFilename (URL r) = files w !! CacheFilename (URL r).
Proof.
  intros H. unfold downloadFile in H.
  pose proof (committed_neq_downloading (URL r)) as Hcd.
  pose proof (committed_neq_quarantine (URL r)) as Hcq.
  apply bind_inv in H as [([] & w1 & Hs & Hf) | (e' & Hs & _)].
  2:{ apply stream_trace in Hs as (F & _). now apply F. }
  apply stream_trace in Hs as (F & S & _).
  destruct (S eq_refl) as [c Hc].
  pose proof (finish_spec _ _ _ _ _ _ Hf Hc) as Hfin. cbv zeta in Hfin.
  destruct (match SHA r with
            | Some sha => fst (validateDownload E sha (URL r)
                                 (cacheDownloadingFileName (URL r)) w1)
            | None => Ok tt
            end) as [[]|verr].
  - destruct (rename_fault E _ _); [| destruct Hfin; discriminate].
    destruct Hfin as (_ & -> & _). now apply F.
  - destruct Hfin as (_ & Hfin).
    destruct (rename_fault E _ _); destruct Hfin as (-> & _).
    + now apply F.
    + rewrite lookup_insert_ne, lookup_delete_ne by (symmetry; assumption).
      now apply F.
Qed.

Lemma Download_returns_committed_file_aux E r w p w' :
  Download E r w = (Ok p, w') ->
  p = CacheFilename (URL r) /\ is_Some (files w' !! CacheFilename (URL r)).
Proof.
  unfold Download. intros H.
  destruct (hasCache (URL r) w) eqn:Hh; simpl in H.
  - inv H. split; [reflexivity |].
    rewrite hasCache_lookup in Hh. now apply bool_decide_eq_true in Hh.
  - destruct (downloadFile E r w) as [[[]|e] w1] eqn:Hd; inv H.
    split; [reflexivity |]. now apply downloadFile_ok in Hd as [Hsome _].
Qed.

(** X7. What [Download] hands back: when it returns a path, the path is
    the committed path of the URL and a file exists there afterwards; on a
    hit nothing at all has changed, and after a miss no in-progress file
    is left behind. *)
Theorem Download_returns_committed_file (E : Env) (r : Request)
    (w : World) (p : string) (w' : World) :
  Download E r w = (Ok p, w') ->
  p = CacheFilename (URL r) /\
  is_Some (files w' !! p) /\
  (hasCache (URL r) w = true -> w' = w) /\
  (hasCache (URL r) w = false ->
   files w' !! cacheDownloadingFileName (URL r) = None).
Proof.
  unfold Download. intros H.
  destruct (hasCache (URL r) w) eqn:Hh; simpl in H.
  - inv H. split; [reflexivity |]. split.
    + rewrite hasCache_lookup in Hh. now apply bool_decide_eq_true in Hh.
    + split; [reflexivity | discriminate].
  - destruct (downloadFile E r w) as [[[]|e] w1] eqn:Hd; inv H.
    split; [reflexivity |].
    pose proof (downloadFile_ok _ _ _ _ _ Hd) as [Hsome _].
    apply downloadFile_ok_content in Hd as (_ & _ & _ & _ & Hdl & _).
    split; [exact Hsome |]. split; [discriminate | intros _; exact Hdl].
Qed.

(** X8. A failed [Download]: the cache was missed, the error is the
    error of the attempt wrapped with the URL, so that its message starts
    with [error downloading 'URL': ], and the cache is still missed
    afterwards. *)
Theorem Download_failure (E : Env) (r : Request) (w : World) (e : error)
    (w' : World) :
  Download E r w = (Err e, w') ->
  hasCache (URL r) w = false /\
  hasCache (URL r) w' = false /\
  exists cause,
    downloadFile E r w = (Err cause, w') /\
    e = Wrap ("error downloading '" +:+ URL r +:+ "'") cause /\
    Error e = ("error downloading '" +:+ URL r +:+ "'") +:+ ": "
              +:+ Error cause.
Proof.
  unfold Download. intros H.
  destruct (hasCache (URL r) w) eqn:Hh; simpl in H; [discriminate |].
  destruct (downloadFile E r w) as [[[]|cause] w1] eqn:Hd; inv H.
  split; [reflexivity |]. split.
  - rewrite <- Hh. apply hasCache_same.
    eapply downloadFile_err_committed; eauto.
  - exists cause. auto.
Qed.

Lemma filter_guest_run_none evs :
  Forall (fun ev => is_guest_run ev = false) evs ->
  List.filter is_guest_run evs = [].
Proof.
  induction 1 as [|ev evs Hev _ IH]; [reflexivity |].
  simpl. now rewrite Hev.
Qed.

Lemma Download_no_guest_run E r w res w' :
  Download E r w = (res, w') ->
  exists evs, log w' = log w ++ evs /\ List.filter is_guest_run evs = [].
Proof.
  unfold Download. intros H.
  destruct (hasCache (URL r) w); simpl in H.
  - inv H. exists []. now rewrite app_nil_r.
  - destruct (downloadFile E r w) as [res1 w1] eqn:Hd.
    apply downloadFile_trace in Hd as (_ & evs & L & P & _).
    exists evs. split; [destruct res1; now inv H |].
    apply filter_guest_run_none.
    eapply Forall_impl; [exact P |]. apply attempt_event_no_guest.
Qed.

(** X9. [DownloadToGuest] for a URL that is not a local path: when the
    download fails, its error is returned and no command is run in the
    guest; when it succeeds, exactly one command is run in the guest, the
    copy of the committed file, which exists, to the destination, and the
    result is the result of that command. *)
Theorem DownloadToGuest_remote (E : Env) (r : Request) (filename : string)
    (w : World) :
  HasPrefix_slash (URL r) = false ->
  let out := DownloadToGuest E r filename w in
  exists evs,
    log (snd out) = log w ++ evs /\
    match fst (Download E r w) with
    | Err e =>
        out = (Err e, snd (Download E r w)) /\
        List.filter is_guest_run evs = []
    | Ok p =>
        let cp := ["cp"; CacheFilename (URL r); filename] in
        p = CacheFilename (URL r) /\
        is_Some (files (snd out) !! CacheFilename (URL r)) /\
        fst out = match guest_RunQuiet E cp with
                  | Some err => Err err
                  | None => Ok tt
                  end /\
        List.filter is_guest_run evs = [EvGuestRun cp]
    end.
Proof.
  intros Hp out. subst out. unfold DownloadToGuest, bind. rewrite Hp.
  destruct (Download E r w) as [[p|e] w1] eqn:Hd; simpl.
  - pose proof (Download_no_guest_run _ _ _ _ _ Hd) as (evs & L & G).
    apply Download_returns_committed_file_aux in Hd as [-> Hsome].
    exists (evs ++ [EvGuestRun ["cp"; CacheFilename (URL r); filename]]).
    unfold guest_Run. simpl. split; [rewrite L; now rewrite app_assoc |].
    split; [reflexivity |]. split; [exact Hsome |]. split; [reflexivity |].
    rewrite List.filter_app, G. reflexivity.
  - pose proof (Download_no_guest_run _ _ _ _ _ Hd) as (evs & L & G).
    exists evs. auto.
Qed.

(** X10. The three names of a URL, committed, in-progress and
    quarantine, are pairwise distinct, whatever the cache root and the
    digest are, and so are the in-progress and quarantine names of any
    URL and the committed name of the same URL: an operation on one of
    the three files is never an operation on another. *)
Theorem cache_names_distinct (url : string) :
  CacheFilename url <> cacheDownloadingFileName url /\
  CacheFilename url <> quarantineFileName url /\
  cacheDownloadingFileName url <> quarantineFileName url /\
  String.length (cacheDownloadingFileName url)
  = (String.length (CacheFilename url) + 12)%nat /\
  String.length (quarantineFileName url)
  = (String.length (CacheFilename url) + 20)%nat.
Proof.
  split; [apply committed_neq_downloading |].
  split; [apply committed_neq_quarantine |].
  split; [apply downloading_neq_quarantine |].
  unfold quarantineFileName, cacheDownloadingFileName.
  rewrite !length_append. simpl. split; lia.
Qed.

(** ** The meter over a whole transfer *)

Lemma wrap64_wrap64_add (a b : Z) : wrap64 (wrap64 a + b) = wrap64 (a + b).
Proof.
  unfold wrap64.
  replace ((a + 2 ^ 63) mod 2 ^ 64 - 2 ^ 63 + b + 2 ^ 63)
    with ((a + 2 ^ 63) mod 2 ^ 64 + b) by lia.
  rewrite Zplus_mod_idemp_l. f_equal. f_equal. lia.
Qed.

Lemma len_app (a b : list Byte.byte) : len (a ++ b) = len a + len b.
Proof. unfold len. rewrite length_app. lia. Qed.

Lemma wrap64_range (z : Z) : MinInt64 <= wrap64 z <= MaxInt64.
Proof.
  unfold wrap64, MinInt64, MaxInt64.
  pose proof (Z.mod_pos_bound (z + 2 ^ 63) (2 ^ 64) ltac:(lia)). lia.
Qed.

(** X11. The counter over a whole transfer: after any number of writes,
    throttled or not, a meter whose [Current] is an [int64] has as
    [Current] its initial value plus the total number of bytes written,
    in [int64] arithmetic, hence exactly that sum whenever the sum is an
    [int64]; [Total] is what it was, no file has changed, and at most one
    line was printed per write. ([io_Copy_meter] below: these are the
    writes the copy loop makes.) *)
Theorem Write_each_counts (E : Env) (bs : list (list Byte.byte)) :
  forall (p : Progress) (w : World),
    MinInt64 <= Current p <= MaxInt64 ->
    let out := Write_each E p bs w in
    Current (fst out) = wrap64 (Current p + len (concat bs)) /\
    (Current p + len (concat bs) <= MaxInt64 ->
     Current (fst out) = Current p + len (concat bs)) /\
    Total (fst out) = Total p /\
    files (snd out) = files w /\
    exists evs,
      log (snd out) = log w ++ evs /\ (length evs <= length bs)%nat.
Proof.
  assert (Hexact : forall c n out : Z,
            MinInt64 <= c -> 0 <= n -> out = wrap64 (c + n) ->
            c + n <= MaxInt64 -> out = c + n).
  { intros c n out Hc Hn -> Hhi. apply wrap64_in_range. lia. }
  induction bs as [|b bs IH]; intros p w Hp out; subst out.
  - simpl. change (len []) with 0. rewrite Z.add_0_r.
    rewrite wrap64_in_range by exact Hp.
    repeat split; auto. exists []. now rewrite app_nil_r.
  - destruct (Write_result E p b w) as (p1 & w1 & HW & Hc & Ht & Hf & Hl).
    simpl Write_each. rewrite HW.
    assert (Hp1 : MinInt64 <= Current p1 <= MaxInt64)
      by (rewrite Hc; apply wrap64_range).
    destruct (IH p1 w1 Hp1) as (Hcur & _ & Htot & Hfiles & evs & Hlog & Hlen).
    assert (Hsum : Current (fst (Write_each E p1 bs w1))
                   = wrap64 (Current p + len (concat (b :: bs)))).
    { rewrite Hcur, Hc. unfold int64_add. rewrite wrap64_wrap64_add.
      simpl concat. rewrite len_app. f_equal. lia. }
    split; [exact Hsum |]. split.
    { intros Hhi.
      apply Hexact; [lia | unfold len; lia | exact Hsum | exact Hhi]. }
    split; [now rewrite Htot |]. split; [now rewrite Hfiles |].
    destruct Hl as [Hl | Hl]; rewrite Hl in Hlog.
    + exists evs. split; [exact Hlog | simpl; lia].
    + eexists (_ :: evs). split; [rewrite Hlog; now rewrite <- app_assoc |].
      simpl. lia.
Qed.

(** [Write] looks at the clock only: in two worlds that have taken the
    same number of clock readings it returns the same meter, takes the
    same number of readings and prints the same. *)
Lemma Write_clock_only E p b w w0 :
  ticks w = ticks w0 ->
  fst (Write E p b w) = fst (Write E p b w0) /\
  ticks (snd (Write E p b w)) = ticks (snd (Write E p b w0)) /\
  exists evs,
    log (snd (Write E p b w)) = log w ++ evs /\
    log (snd (Write E p b w0)) = log w0 ++ evs /\
    List.filter is_print evs = evs.
Proof.
  intros Ht. unfold Write, time_Since, time_Now. simpl. rewrite Ht.
  destruct (lastReport p) as [t0|]; simpl.
  - destruct (_ <? _); simpl; rewrite ?Ht;
      (split; [reflexivity |]); (split; [reflexivity |]).
    + exists []. now rewrite !app_nil_r.
    + eexists [_]. repeat split.
  - rewrite ?Ht. split; [reflexivity |]. split; [reflexivity |].
    eexists [_]. repeat split.
Qed.

(** The meter of the copy loop is the meter of [Write_each]: when no
    write to the file fails, the copy takes the clock readings and prints
    the lines that successive [Write]s of the chunks that delivered bytes
    take and print. *)
Lemma io_Copy_meter E chunks eof :
  (forall k, write_fault E k = None) ->
  forall k dst p w w0,
    ticks w = ticks w0 ->
    exists evs evs0,
      log (snd (io_Copy E k dst p chunks eof w)) = log w ++ evs /\
      log (snd (Write_each E p (List.filter delivers chunks) w0))
      = log w0 ++ evs0 /\
      List.filter is_print evs = evs0 /\
      ticks (snd (io_Copy E k dst p chunks eof w))
      = ticks (snd (Write_each E p (List.filter delivers chunks) w0)).
Proof.
  intros Hnf.
  induction chunks as [|c chunks IH]; intros k dst p w w0 Ht.
  - simpl. exists [], []. destruct eof; simpl; now rewrite !app_nil_r.
  - simpl. destruct c as [|b c]; [now apply IH |]. simpl.
    destruct (Write_clock_only E p (b :: c) w w0 Ht)
      as (Hp & Hticks & pevs & Hl & Hl0 & Hpr).
    destruct (Write_result E p (b :: c) w) as (p1 & w1 & HW & _).
    destruct (Write_result E p (b :: c) w0) as (p2 & w2 & HW0 & _).
    rewrite HW in *. rewrite HW0 in *. simpl in Hp, Hticks, Hl, Hl0.
    inv Hp.
    unfold File_Write. rewrite (Hnf k). simpl.
    match goal with
    | |- context [io_Copy E (S k) ?d p2 chunks eof ?w3] =>
        destruct (IH (S k) d p2 w3 w2 Hticks)
          as (evs & evs0 & L & L0 & Hf & Htk);
        exists (pevs ++ EvWrite (Name dst) (offset dst) (b :: c) :: evs),
               (pevs ++ evs0)
    end.
    simpl in L. split; [rewrite L, Hl; now rewrite <- !app_assoc |].
    split; [rewrite L0, Hl0; now rewrite <- app_assoc |].
    split; [| exact Htk].
    rewrite List.filter_app, Hpr. simpl. now rewrite Hf.
Qed.

(** X12. The throttle of [Write]: the first write of a meter always
    prints; a later write prints exactly when the clock reads at least
    500 ms more than the reading recorded at the last print (the
    saturation of the duration plays no part); a write that prints
    records a new clock reading, a write that does not leaves the
    recorded one; what is printed is the percentage of the counters after
    the write. *)
Theorem Write_throttle (E : Env) (p : Progress) (b : list Byte.byte)
    (w : World) :
  let out := Write E p b w in
  let p' := fst (fst out) in
  let line := carriage_return +:+ "downloading ... "
              +:+ terminal.Progress (Current p') (Total p') +:+ " " in
  let printed := log (snd out) = log w ++ [EvPrint line] /\
                 lastReport p' = Some (clock E (S (ticks w))) /\
                 ticks (snd out) = S (S (ticks w)) in
  let silent := log (snd out) = log w /\
                lastReport p' = lastReport p /\
                ticks (snd out) = S (ticks w) in
  match lastReport p with
  | None => printed
  | Some t0 =>
      if clock E (ticks w) - t0 <? 500000000 then silent else printed
  end.
Proof.
  intros out p' line printed silent. subst printed silent line p' out.
  unfold Write, time_Since, time_Now. simpl.
  destruct (lastReport p) as [t0|]; [| simpl; auto].
  assert (Hsat : (Z.max MinInt64 (Z.min MaxInt64 (clock E (ticks w) - t0))
                  <? time_Second / 2)
                 = (clock E (ticks w) - t0 <? 500000000)).
  { change (time_Second / 2) with 500000000. unfold MinInt64, MaxInt64.
    destruct (clock E (ticks w) - t0 <? 500000000) eqn:Hd.
    - apply Z.ltb_lt. apply Z.ltb_lt in Hd. lia.
    - apply Z.ltb_ge. apply Z.ltb_ge in Hd. lia. }
  rewrite Hsat. destruct (clock E (ticks w) - t0 <? 500000000); simpl; auto.
Qed.

(** X13. [terminal.Progress] is the blank string exactly when the total
    is zero or negative; for a positive total it ends with the percent
    sign. *)
Theorem Progress_blank_iff (current total : Z) :
  (terminal.Progress current total = "" <-> total <= 0) /\
  (0 < total ->
   exists digits, terminal.Progress current total = digits +:+ "%").
Proof.
  split.
  - split.
    + intros Hb. destruct (Z.le_gt_cases total 0) as [Hle | Hgt];
        [exact Hle |].
      exfalso. revert Hb. unfold terminal.Progress.
      destruct (total <=? 0) eqn:Ht; [lia |].
      intros Heq. apply (f_equal String.length) in Heq.
      rewrite length_append in Heq. simpl in Heq. lia.
    + intros Hle. unfold terminal.Progress.
      destruct (total <=? 0) eqn:Ht; [reflexivity | lia].
  - intros Hgt. unfold terminal.Progress.
    destruct (total <=? 0) eqn:Ht; [lia |]. eauto.
Qed.

(** ** The percentage at the ends of a transfer *)

Lemma div_rne_spec (n d : Z) :
  0 < d -> - d <= 2 * (n - div_rne n d * d) <= d.
Proof.
  intros Hd. unfold div_rne.
  pose proof (Z.div_mod n d ltac:(lia)) as Hdm.
  pose proof (Z.mod_pos_bound n d Hd) as Hr.
  destruct (2 * (n mod d) <? d) eqn:H1; [apply Z.ltb_lt in H1; lia |].
  apply Z.ltb_ge in H1.
  destruct (d <? 2 * (n mod d)) eqn:H2; [apply Z.ltb_lt in H2; lia |].
  apply Z.ltb_ge in H2.
  destruct (Z.even (n / d)); lia.
Qed.

Lemma log2_between (n a : Z) :
  0 <= a -> 2 ^ a <= n < 2 ^ (a + 1) -> Z.log2 n = a.
Proof. intros Ha H. apply Z.log2_unique; [exact Ha | exact H]. Qed.

(** [float64] of a positive integer is a normalised value. *)
Lemma float64_of_int_normal (t : Z) :
  0 < t ->
  exists mx ex, float64_of_int t = F64 mx ex /\ 2 ^ 52 <= mx < 2 ^ 53.
Proof.
  intros Ht. unfold float64_of_int.
  destruct (t =? 0) eqn:H0; [lia |].
  destruct (t <? 0) eqn:Hn; [lia |]. simpl f64_signed.
  rewrite Z.abs_eq by lia.
  unfold round64. change (Z.log2 1) with 0.
  set (a := Z.log2 t).
  assert (Ha : 0 <= a) by apply Z.log2_nonneg.
  destruct (Z.log2_spec t Ht) as [Hlo Hhi]. fold a in Hlo, Hhi.
  destruct (a <? 0) eqn:Hab; [lia |].
  rewrite Z.sub_0_r, !Z.mul_1_l.
  destruct (2 ^ a <=? t) eqn:Hge; [| apply Z.leb_gt in Hge; lia].
  set (e := a - 52).
  set (m := div_rne (t * 2 ^ Z.max (- e) 0) (2 ^ Z.max e 0)).
  assert (Hm : 2 ^ 52 <= m <= 2 ^ 53).
  { subst m. destruct (Z.le_gt_cases a 52) as [Hle | Hgt].
    - rewrite (Z.max_r e 0), (Z.max_l (- e) 0) by (subst e; lia).
      pose proof (div_rne_spec (t * 2 ^ (- e)) (2 ^ 0) ltac:(lia)) as Hs.
      change (2 ^ 0) with 1 in *.
      assert (Hm1 : div_rne (t * 2 ^ (- e)) 1 = t * 2 ^ (- e)) by lia.
      rewrite Hm1.
      replace (2 ^ 52) with (2 ^ a * 2 ^ (- e))
        by (rewrite <- Z.pow_add_r by (subst e; lia); f_equal; subst e; lia).
      replace (2 ^ 53) with (2 ^ (Z.succ a) * 2 ^ (- e))
        by (rewrite <- Z.pow_add_r by (subst e; lia); f_equal; subst e; lia).
      assert (0 < 2 ^ (- e)) by (apply Z.pow_pos_nonneg; subst e; lia).
      nia.
    - rewrite (Z.max_l e 0), (Z.max_r (- e) 0) by (subst e; lia).
      change (2 ^ 0) with 1. rewrite Z.mul_1_r.
      assert (Hp : 0 < 2 ^ e) by (apply Z.pow_pos_nonneg; subst e; lia).
      pose proof (div_rne_spec t (2 ^ e) Hp) as Hs.
      assert (H52 : 2 ^ a = 2 ^ 52 * 2 ^ e)
        by (rewrite <- Z.pow_add_r by (subst e; lia); f_equal; subst e; lia).
      assert (H53 : 2 ^ Z.succ a = 2 ^ 53 * 2 ^ e)
        by (rewrite <- Z.pow_add_r by (subst e; lia); f_equal; subst e; lia).
      rewrite H52 in Hlo. rewrite H53 in Hhi.
      nia. }
  destruct (m =? 2 ^ 53) eqn:Hmax.
  - exists (2 ^ 52), (e + 1). split; [reflexivity | lia].
  - apply Z.eqb_neq in Hmax. exists m, e. split; [reflexivity | lia].
Qed.

Lemma round64_int_at (N a : Z) :
  52 <= a -> 2 ^ a <= N < 2 ^ (a + 1) ->
  round64 N 1
  = if div_rne N (2 ^ (a - 52)) =? 2 ^ 53
    then F64 (2 ^ 52) (a - 52 + 1)
    else F64 (div_rne N (2 ^ (a - 52))) (a - 52).
Proof.
  intros Ha HN. unfold round64.
  rewrite (log2_between N a) by (lia || exact HN).
  change (Z.log2 1) with 0.
  destruct (a <? 0) eqn:Hab; [lia |].
  rewrite Z.sub_0_r, !Z.mul_1_l.
  destruct (2 ^ a <=? N) eqn:Hge; [| apply Z.leb_gt in Hge; lia].
  rewrite (Z.max_l (a - 52) 0), (Z.max_r (- (a - 52)) 0) by lia.
  change (2 ^ 0) with 1. rewrite Z.mul_1_r. reflexivity.
Qed.

Lemma round64_ratio (my mx : Z) :
  2 ^ 52 <= my < 2 ^ 53 -> 2 ^ 52 <= mx < 2 ^ 53 ->
  round64 my mx
  = if mx <=? my
    then (if div_rne (my * 2 ^ 52) mx =? 2 ^ 53
          then F64 (2 ^ 52) (- 52 + 1)
          else F64 (div_rne (my * 2 ^ 52) mx) (- 52))
    else (if div_rne (my * 2 ^ 53) mx =? 2 ^ 53
          then F64 (2 ^ 52) (- 53 + 1)
          else F64 (div_rne (my * 2 ^ 53) mx) (- 53)).
Proof.
  intros Hy Hx. unfold round64.
  rewrite (log2_between my 52), (log2_between mx 52) by (lia || assumption).
  change (52 <? 52) with false. cbv iota.
  change (52 - 52) with 0. change (2 ^ 0) with 1. rewrite Z.mul_1_r.
  destruct (mx <=? my).
  - change (0 - 52) with (- 52).
    change (Z.max (- - 52) 0) with 52. change (Z.max (- 52) 0) with 0.
    change (2 ^ 0) with 1. now rewrite Z.mul_1_r.
  - change (0 - 1 - 52) with (- 53).
    change (Z.max (- - 53) 0) with 53. change (Z.max (- 53) 0) with 0.
    change (2 ^ 0) with 1. now rewrite Z.mul_1_r.
Qed.

(** X14. The two ends of a transfer of known length: for any positive
    total, a meter that has counted nothing reads 0.00% and a meter whose
    count has reached the total reads 100.00%, the two roundings of the
    [float64] product and quotient notwithstanding. *)
Theorem Progress_endpoints (t : Z) :
  0 < t ->
  terminal.Progress 0 t = "0.00%" /\ terminal.Progress t t = "100.00%".
Proof.
  intros Ht. split.
  { unfold terminal.Progress. destruct (t <=? 0) eqn:H0; [lia | reflexivity]. }
  unfold terminal.Progress.
  destruct (t <=? 0) eqn:H0; [lia |].
  destruct (float64_of_int_normal t Ht) as (mx & ex & -> & Hmx).
  change (float64_of_int 100) with (F64 M100 (- 46)).
  assert (P52 : 2 ^ 52 = 4503599627370496) by reflexivity.
  assert (P53 : 2 ^ 53 = 9007199254740992) by reflexivity.
  rewrite P52, P53 in Hmx.
  unfold f64_mul. simpl mant. simpl expo.
  destruct (mx =? 0) eqn:Hz; [lia |]. change (M100 =? 0) with false.
  simpl orb. cbv iota.
  destruct (mx <? 0) eqn:Hneg; [lia |]. change (M100 <? 0) with false.
  simpl Bool.eqb. simpl negb. simpl f64_signed.
  rewrite (Z.abs_eq mx) by lia. change (Z.abs M100) with M100.
  assert (Hy : exists my ey,
             round64 (mx * M100) 1 = F64 my ey /\
             4503599627370496 <= my < 9007199254740992 /\
             ((ey = 52 /\
               - 4503599627370496
               <= 2 * (mx * M100 - my * 4503599627370496)
               <= 4503599627370496) \/
              (ey = 53 /\
               - 9007199254740992
               <= 2 * (mx * M100 - my * 9007199254740992)
               <= 9007199254740992))).
  { destruct (Z.lt_ge_cases (mx * 100) 576460752303423488) as [Hlt | Hge].
    - rewrite (round64_int_at (mx * M100) 104) by (unfold M100; lia).
      change (104 - 52) with 52. rewrite P52, P53.
      pose proof (div_rne_spec (mx * M100) 4503599627370496 ltac:(lia)) as Hs.
      set (m := div_rne (mx * M100) 4503599627370496) in *.
      destruct (m =? 9007199254740992) eqn:Hmax.
      + apply Z.eqb_eq in Hmax. exists 4503599627370496, 53.
        split; [reflexivity |]. split; [lia |]. right. split; [lia |].
        unfold M100 in *. lia.
      + apply Z.eqb_neq in Hmax. exists m, 52.
        split; [reflexivity |]. split; [unfold M100 in *; lia |].
        left. split; [reflexivity | lia].
    - rewrite (round64_int_at (mx * M100) 105) by (unfold M100; lia).
      change (105 - 52) with 53. rewrite P53.
      pose proof (div_rne_spec (mx * M100) 9007199254740992 ltac:(lia)) as Hs.
      set (m := div_rne (mx * M100) 9007199254740992) in *.
      destruct (m =? 9007199254740992) eqn:Hmax.
      + apply Z.eqb_eq in Hmax. unfold M100 in *. lia.
      + exists m, 53. split; [reflexivity |].
        split; [unfold M100 in *; lia |]. right. split; [reflexivity | lia]. }
  destruct Hy as (my & ey & -> & Hmy & Hey).
  unfold f64_scale. simpl mant. simpl expo.
  unfold f64_div. simpl mant. simpl expo.
  destruct (my =? 0) eqn:Hz2; [lia |].
  destruct (my <? 0) eqn:Hneg2; [lia |]. rewrite Hneg.
  simpl Bool.eqb. simpl negb. simpl f64_signed.
  rewrite (Z.abs_eq my), (Z.abs_eq mx) by lia.
  rewrite (round64_ratio my mx) by (rewrite P52, P53; lia).
  rewrite P52, P53.
  assert (Hq : exists mq,
             f64_scale
               (if mx <=? my
                then
                 if div_rne (my * 4503599627370496) mx =? 9007199254740992
                 then F64 4503599627370496 (-52 + 1)
                 else F64 (div_rne (my * 4503599627370496) mx) (-52)
                else
                 if div_rne (my * 9007199254740992) mx =? 9007199254740992
                 then F64 4503599627370496 (-53 + 1)
                 else F64 (div_rne (my * 9007199254740992) mx) (-53))
               (ey + (ex + -46) - ex)
             = F64 mq (- 46) /\ M100 - 1 <= mq <= M100 + 1).
  { assert (Hnear : forall m k : Z,
              - k <= 2 * (mx * M100 - my * k) <= k ->
              k <= 2 * mx ->
              - mx <= 2 * (my * k - m * mx) <= mx ->
              M100 - 1 <= m <= M100 + 1).
    { intros m k H1 Hk H2.
      assert (H3 : - 3 * mx <= 2 * ((M100 - m) * mx) <= 3 * mx) by lia.
      nia. }
    destruct Hey as [[-> Hr] | [-> Hr]].
    - destruct (mx <=? my) eqn:Hle;
        [| apply Z.leb_gt in Hle; unfold M100 in *; lia].
      pose proof (div_rne_spec (my * 4503599627370496) mx ltac:(lia)) as Hs.
      set (m := div_rne (my * 4503599627370496) mx) in *.
      pose proof (Hnear m 4503599627370496 Hr ltac:(lia) Hs) as Hm.
      destruct (m =? 9007199254740992) eqn:Hmax;
        [apply Z.eqb_eq in Hmax; unfold M100 in *; lia |].
      exists m. split; [| exact Hm]. unfold f64_scale. simpl. f_equal. lia.
    - destruct (mx <=? my) eqn:Hle;
        [apply Z.leb_le in Hle; unfold M100 in *; lia |].
      pose proof (div_rne_spec (my * 9007199254740992) mx ltac:(lia)) as Hs.
      set (m := div_rne (my * 9007199254740992) mx) in *.
      pose proof (Hnear m 9007199254740992 Hr ltac:(lia) Hs) as Hm.
      destruct (m =? 9007199254740992) eqn:Hmax;
        [apply Z.eqb_eq in Hmax; unfold M100 in *; lia |].
      exists m. split; [| exact Hm]. unfold f64_scale. simpl. f_equal. lia. }
  destruct Hq as (mq & -> & Hmq).
  assert (Hcases : mq = M100 - 1 \/ mq = M100 \/ mq = M100 + 1) by lia.
  destruct Hcases as [-> | [-> | ->]]; reflexivity.
Qed.

(** ** Failures on the way *)

(** X15. A failure before the request: when preparing the directory,
    opening the file, reading its length or building the request fails,
    the attempt returns the error of the first of these that fails,
    wrapped with the message of that step; no request is sent, the
    in-progress file holds what it held (it may have been created,
    empty), and no other file changes. *)
Theorem failure_before_request (E : Env) (r : Request) (w : World)
    (e : error) :
  let dl := cacheDownloadingFileName (URL r) in
  let out := downloadFile E r w in
  match mkdirall_fault E with
  | Some e1 => Some (Wrap "error preparing cache dir" e1)
  | None =>
      match openfile_fault E with
      | Some e2 => Some (Wrap "error creating destination file" e2)
      | None =>
          match stat_fault E with
          | Some e3 => Some (Wrap "error getting file stat" e3)
          | None =>
              match newrequest_fault E (URL r) with
              | Some e4 => Some (Wrap "error creating request" e4)
              | None => None
              end
          end
      end
  end = Some e ->
  fst out = Err e /\
  contents (snd out) dl = contents w dl /\
  (forall q, q <> dl -> files (snd out) !! q = files w !! q) /\
  exists evs, log (snd out) = log w ++ evs /\ transfers evs = 0%nat.
Proof.
  intros dl out He. subst out.
  unfold downloadFile, stream, prepare, fetch, bind, wrapping, os_MkdirAll,
    os_OpenFile, File_Stat_Size, http_NewRequest, ret.
  fold dl.
  destruct (mkdirall_fault E) as [e1|].
  { inv He. simpl. repeat split; auto. exists []. now rewrite app_nil_r. }
  destruct (openfile_fault E) as [e2|].
  { inv He. simpl. repeat split; auto.
    now exists [EvMkdirAll (filepath_Dir dl)]. }
  simpl. unfold contents.
  destruct (files w !! dl) as [c|] eqn:Hc; simpl.
  - destruct (stat_fault E) as [e3|].
    { inv He. simpl. rewrite Hc. repeat split; auto.
      now exists [EvMkdirAll (filepath_Dir dl)]. }
    destruct (newrequest_fault E (URL r)) as [e4|]; [| discriminate].
    inv He. simpl. rewrite Hc. repeat split; auto.
    now exists [EvMkdirAll (filepath_Dir dl)].
  - assert (Hlog : forall evs0 : list event,
              (evs0 ++ [EvMkdirAll (filepath_Dir dl)]) ++ [EvCreate dl]
              = evs0 ++ [EvMkdirAll (filepath_Dir dl); EvCreate dl])
      by (intros; now rewrite <- app_assoc).
    destruct (stat_fault E) as [e3|].
    { inv He. simpl. rewrite lookup_insert_eq. repeat split; auto.
      - intros q Hq. now apply lookup_insert_ne.
      - eexists. split; [apply Hlog | reflexivity]. }
    destruct (newrequest_fault E (URL r)) as [e4|]; [| discriminate].
    inv He. simpl. rewrite lookup_insert_eq. repeat split; auto.
    + intros q Hq. now apply lookup_insert_ne.
    + eexists. split; [apply Hlog | reflexivity].
Qed.

Lemma fetch_err E r L w e :
  newrequest_fault E (URL r) = None ->
  let req := {| Method := "GET"; ReqURL := URL r;
                RangeHeader := if 0 <? L
                               then Some ("bytes=" +:+ fmt_d L +:+ "-")
                               else None |} in
  client_do E req = Err e ->
  fetch E r L w = (Err (Wrap "error during download" e), emit (EvHTTP req) w).
Proof.
  intros Hn req Hdo. subst req.
  unfold fetch, bind, wrapping, http_NewRequest, client_Do, set_Range.
  rewrite Hn. simpl. destruct (0 <? L); simpl in *; now rewrite Hdo.
Qed.

(** X16. A transport failure: when nothing fails before the request and
    [client.Do] returns an error, the attempt returns that error wrapped
    with [error during download], and the in-progress file holds exactly
    the bytes it held before; no other file changes. *)
Theorem transport_failure_leaves_file (E : Env) (r : Request) (w : World)
    (e : error) :
  let dl := cacheDownloadingFileName (URL r) in
  let prior := contents w dl in
  mkdirall_fault E = None ->
  openfile_fault E = None ->
  stat_fault E = None ->
  newrequest_fault E (URL r) = None ->
  client_do E {| Method := "GET"; ReqURL := URL r;
                 RangeHeader := if 0 <? len prior
                                then Some ("bytes=" +:+ fmt_d (len prior)
                                           +:+ "-")
                                else None |} = Err e ->
  let out := downloadFile E r w in
  fst out = Err (Wrap "error during download" e) /\
  files (snd out) !! dl = Some prior /\
  forall q, q <> dl -> files (snd out) !! q = files w !! q.
Proof.
  intros dl prior Hm Ho Hs Hn Hdo out. subst out.
  destruct (prepare_ok E r w Hm Ho Hs) as (w1 & Hp & Hc & F).
  fold dl prior in Hp, Hc, F.
  pose proof (fetch_err E r (len prior) w1 e Hn Hdo) as Hf.
  unfold downloadFile, stream, bind. rewrite Hp, Hf. simpl. auto.
Qed.

Lemma io_Copy_no_fault E chunks eof :
  (forall k, write_fault E k = None) ->
  forall k dst p w old,
    files w !! Name dst = Some old ->
    (offset dst <= length old)%nat ->
    exists w',
      io_Copy E k dst p chunks eof w
      = (match eof with None => Ok tt | Some err => Err err end, w') /\
      files w' !! Name dst
      = Some (write_at old (offset dst) (concat chunks)) /\
      forall q, q <> Name dst -> files w' !! q = files w !! q.
Proof.
  intros Hnf.
  induction chunks as [|c chunks IH]; intros k dst p w old Hold Hoff.
  - exists w. simpl. split; [now destruct eof |]. split; [| auto].
    rewrite write_at_inside by exact Hoff. simpl.
    now rewrite Nat.add_0_r, take_drop.
  - simpl. destruct c as [|b c]; [now apply IH |].
    destruct (Write_result E p (b :: c) w) as (p1 & w1 & HW & _ & _ & Hf & _).
    rewrite HW. unfold File_Write, contents. rewrite (Hnf k). simpl.
    rewrite Hf, Hold. simpl.
    match goal with
    | |- context [io_Copy E (S k) ?d p1 chunks eof ?w2] =>
        destruct (IH (S k) d p1 w2 (write_at old (offset dst) (b :: c)))
          as (w' & Hc & Hfile & Hframe)
    end.
    + simpl. apply lookup_insert_eq.
    + simpl. rewrite write_at_length by exact Hoff. simpl. lia.
    + exists w'. split; [exact Hc |]. simpl in Hfile, Hframe. split.
      * rewrite Hfile. f_equal. now apply write_at_write_at.
      * intros q Hq. rewrite Hframe by exact Hq. simpl.
        now rewrite lookup_insert_ne by congruence.
Qed.

(** X17. A body that breaks off: when no system call fails and the
    origin answers 2xx with a body whose reading ends in an error, the
    attempt returns that error wrapped with [error writing to file], and
    every byte that was received is in the in-progress file, after the
    earlier bytes on a 206 and over them from the start otherwise;
    nothing appears at the committed path. *)
Theorem broken_body_keeps_received_bytes (E : Env) (r : Request)
    (w : World) (resp : Response) (e : error) :
  let dl := cacheDownloadingFileName (URL r) in
  let prior := contents w dl in
  mkdirall_fault E = None ->
  openfile_fault E = None ->
  stat_fault E = None ->
  newrequest_fault E (URL r) = None ->
  seek_fault E = None ->
  (forall k, write_fault E k = None) ->
  client_do E {| Method := "GET"; ReqURL := URL r;
                 RangeHeader := if 0 <? len prior
                                then Some ("bytes=" +:+ fmt_d (len prior)
                                           +:+ "-")
                                else None |} = Ok resp ->
  200 <= StatusCode resp < 300 ->
  BodyErr resp = Some e ->
  let out := downloadFile E r w in
  fst out = Err (Wrap "error writing to file" e) /\
  files (snd out) !! dl
  = Some (if StatusCode resp =? StatusPartialContent
          then prior ++ concat (Body resp)
          else concat (Body resp) ++ drop (length (concat (Body resp))) prior)
  /\ files (snd out) !! CacheFilename (URL r)
     = files w !! CacheFilename (URL r).
Proof.
  intros dl prior Hm Ho Hs Hn Hsk Hw Hdo Hst Hb out. subst out.
  destruct (prepare_ok E r w Hm Ho Hs) as (w1 & Hp & Hc & F).
  fold dl prior in Hp, Hc, F.
  pose proof (fetch_ok E r (len prior) w1 resp Hn Hdo) as Hf.
  unfold downloadFile, stream, bind. rewrite Hp, Hf.
  unfold restart, check_status, position, bind, wrapping, File_Seek, ret.
  assert (H416 : (StatusCode resp =? StatusRequestedRangeNotSatisfiable)
                 = false)
    by (apply Z.eqb_neq; unfold StatusRequestedRangeNotSatisfiable; lia).
  assert (Hin : ((StatusCode resp <? 200) || (300 <=? StatusCode resp))
                = false)
    by (apply orb_false_iff; split; lia).
  rewrite H416, Hin, Hsk. unfold copy_stream, wrapping. rewrite Hb.
  set (w2 := emit (EvHTTP _) w1).
  assert (Hc2 : files w2 !! dl = Some prior) by exact Hc.
  assert (Hcommitted : forall w3,
            (forall q, q <> dl -> files w3 !! q = files w2 !! q) ->
            files w3 !! CacheFilename (URL r)
            = files w !! CacheFilename (URL r)).
  { intros w3 H3. rewrite H3 by apply committed_neq_downloading.
    apply F, committed_neq_downloading. }
  destruct (StatusCode resp =? StatusPartialContent); simpl.
  - unfold contents. rewrite Hc2. simpl.
    assert (Hoff : (Z.to_nat (len prior + 0) <= length prior)%nat)
      by (unfold len; lia).
    destruct (io_Copy_no_fault E (Body resp) (Some e) Hw 0
                {| Name := dl; offset := Z.to_nat (len prior + 0) |}
                (transfer_meter resp (len prior)) w2 prior Hc2 Hoff)
      as (w3 & -> & Hfile & Hframe).
    simpl in *. split; [reflexivity |]. split; [| now apply Hcommitted].
    rewrite Hfile. f_equal.
    replace (Z.to_nat (len prior + 0)) with (length prior)
      by (unfold len; lia).
    apply write_at_end.
  - destruct (io_Copy_no_fault E (Body resp) (Some e) Hw 0
                {| Name := dl; offset := Z.to_nat (0 + 0) |}
                (transfer_meter resp (len prior)) w2 prior Hc2
                (Nat.le_0_l _))
      as (w3 & -> & Hfile & Hframe).
    simpl in *. split; [reflexivity |]. split; [| now apply Hcommitted].
    rewrite Hfile. reflexivity.
Qed.

End Downloader.

(** ** The downloader on explicit inputs *)

Import Scenario.

Example CacheFilename_scenario :
  CacheFilename cache_root url_digest url = committed_path /\
  cacheDownloadingFileName cache_root url_digest url = downloading_path.
Proof. split; reflexivity. Qed.

(** The scenario of the design document: a first call transfers the
    four bytes and commits them, a second call returns the same path and
    does nothing. *)
Example first_and_second_call :
  let E := env (answer 200 4 [payload 2; payload 2]) "4" in
  let first := Download cache_root url_digest E plain_request empty_world in
  fst first = Ok committed_path /\
  files (snd first) !! committed_path = Some (payload 4) /\
  files (snd first) !! downloading_path = None /\
  transfers (log (snd first)) = 1%nat /\
  Download cache_root url_digest E plain_request (snd first)
  = (Ok committed_path, snd first).
Proof. vm_compute. repeat split. Qed.

(** A body that breaks off in the middle: the attempt fails, the bytes
    received stay in the in-progress file, and nothing appears at the
    committed path. *)
Example mid_stream_failure :
  let E := env (broken (answer 200 4 [payload 2])) "4" in
  let out := Download cache_root url_digest E plain_request empty_world in
  fst out = Err (Wrap "error downloading 'https://example.test/file.bin'"
                   (Wrap "error writing to file" (New "unexpected EOF"))) /\
  match fst out with
  | Err e => Error e = "error downloading 'https://example.test/file.bin': "
                       +:+ "error writing to file: unexpected EOF"
  | Ok _ => False
  end /\
  files (snd out) !! committed_path = None /\
  files (snd out) !! downloading_path = Some (payload 2).
Proof. vm_compute. repeat split. Qed.

(** Resuming: three bytes are on disk, the origin answers 206 with the
    remaining two, and the committed file is the three followed by the
    two. *)
Example resume_appends :
  let E := env (answer 206 2 [fresh 2]) "5" in
  let out := Download cache_root url_digest E plain_request (partial_world 3) in
  fst out = Ok committed_path /\
  files (snd out) !! committed_path = Some (payload 3 ++ fresh 2) /\
  In (EvHTTP {| Method := "GET"; ReqURL := url;
                RangeHeader := Some "bytes=3-" |}) (log (snd out)).
Proof. vm_compute. repeat split. tauto. Qed.

(** A full answer shorter than the partial file overwrites its start
    and leaves the rest in place. *)
Example shorter_full_response_keeps_tail :
  let E := env (answer 200 2 [fresh 2]) "5" in
  let out := Download cache_root url_digest E plain_request (partial_world 5) in
  fst out = Ok committed_path /\
  files (snd out) !! committed_path = Some (fresh 2 ++ payload 3).
Proof. vm_compute. repeat split. Qed.

(** C2 on an explicit input: the origin delivers four bytes, the
    validator expects another digest. *)
Lemma C2_checksum_enforcement_witness :
  let E := env (answer 200 4 [payload 2; payload 2]) "5" in
  let sha := {| checksum_resource := "SHA256SUMS" |} in
  let w1 := snd (stream cache_root url_digest E checked_request empty_world) in
  let out := downloadFile cache_root url_digest E checked_request empty_world in
  let verr := New "checksum mismatch: expected 5, got 4" in
  (SHA checked_request = Some sha /\
   stream cache_root url_digest E checked_request empty_world = (Ok tt, w1) /\
   validate E sha url downloading_path (contents w1 downloading_path)
   = Some verr) /\
  fst out = Err (Wrap "error validating SHA sum for 'file.bin'" verr) /\
  files (snd out) !! committed_path = None /\
  files (snd out) !! (downloading_path +:+ ".invalid") = Some (payload 4).
Proof.
  intros E sha w1 out verr.
  assert (Hs : stream cache_root url_digest E checked_request empty_world
               = (Ok tt, w1)) by (vm_compute; reflexivity).
  assert (Hv : validate E sha url downloading_path
                 (contents w1 downloading_path) = Some verr)
    by (vm_compute; reflexivity).
  split; [split; [reflexivity | split; [exact Hs | exact Hv]] |].
  destruct (C2_checksum_enforcement cache_root url_digest E checked_request
              sha empty_world w1 verr eq_refl Hs Hv)
    as (Hout & Hc & _ & Hq & _).
  split; [exact Hout |]. split; [exact Hc | exact Hq].
Defined.

(** C3 on an explicit input: the first call misses and transfers, the
    second, even with a checksum reference, returns the same path. *)
Lemma C3_idempotent_cache_hit_witness :
  let E := env (answer 200 4 [payload 2; payload 2]) "4" in
  let first := Download cache_root url_digest E plain_request empty_world in
  (URL checked_request = URL plain_request /\
   first = (Ok committed_path, snd first)) /\
  Download cache_root url_digest E checked_request (snd first)
  = (Ok committed_path, snd first) /\
  exists evs,
    log (snd (Download cache_root url_digest E checked_request (snd first)))
    = evs /\
    transfers evs = 1%nat.
Proof.
  intros E first.
  assert (H1 : first = (Ok committed_path, snd first))
    by (vm_compute; reflexivity).
  split; [split; [reflexivity | exact H1] |].
  destruct (proj2 (C3_idempotent_cache_hit cache_root url_digest E
                     plain_request empty_world)
              E checked_request committed_path (snd first) eq_refl H1)
    as (_ & H2 & evs & Hl & Ht).
  split; [exact H2 |]. exists evs. split; [exact Hl | exact Ht].
Defined.

(** The same on an explicit input: five bytes of an earlier attempt, and
    an origin that answers 416. *)
Lemma C4_range_not_satisfiable_witness :
  let resp := answer 416 0 [payload 3] in
  let E := env resp "4" in
  let f := {| Name := downloading_path; offset := 0 |} in
  let w := partial_world 5 in
  let w1 := snd (prepare cache_root url_digest E plain_request w) in
  let w2 := snd (fetch E plain_request 5 w1) in
  let out := downloadFile cache_root url_digest E plain_request w in
  (prepare cache_root url_digest E plain_request w = (Ok (f, 5), w1) /\
   fetch E plain_request 5 w1 = (Ok resp, w2) /\
   StatusCode resp = StatusRequestedRangeNotSatisfiable) /\
  fst out = Err (New "unexpected status code: 416") /\
  files (snd out) !! downloading_path = Some [].
Proof.
  intros resp E f w w1 w2 out.
  assert (Hp : prepare cache_root url_digest E plain_request w
               = (Ok (f, 5), w1)) by (vm_compute; reflexivity).
  assert (Hf : fetch E plain_request 5 w1 = (Ok resp, w2))
    by (vm_compute; reflexivity).
  split; [split; [exact Hp | split; [exact Hf | reflexivity]] |].
  destruct (C4_range_not_satisfiable cache_root url_digest E plain_request
              w f 5 w1 resp w2 Hp Hf eq_refl)
    as (_ & Hc & Hd & _).
  subst out. rewrite Hd. split; [reflexivity | exact Hc].
Defined.

(** The origin answers 416, and the attempt ends with the
    unexpected-status error all the same. *)
Lemma C4_status_416_aborts :
  let resp := answer 416 0 [payload 3] in
  let E := env resp "4" in
  client_do E {| Method := "GET"; ReqURL := url;
                 RangeHeader := Some "bytes=5-" |} = Ok resp /\
  StatusCode resp = StatusRequestedRangeNotSatisfiable /\
  fst (downloadFile cache_root url_digest E plain_request (partial_world 5))
  = Err (New "unexpected status code: 416").
Proof. vm_compute. repeat split. Qed.

(** C4 on the failing input: five bytes of an earlier attempt are in the
    in-progress file and the origin answers the request for the rest
    with 416. Lines 139-148 handle the answer, cutting the file to zero
    length and resetting the current size to 0 so as to start from
    scratch, and nothing of the body is written; but the check of lines
    150-154 does not exempt 416, and the attempt ends there with
    [unexpected status code: 416]: the size that was reset is never read
    and no transfer from byte 0 takes place. *)
Theorem C4_handled_416_is_reported_unexpected :
  let resp := answer 416 0 [payload 3] in
  let E := env resp "4" in
  let w := partial_world 5 in
  let f := {| Name := downloading_path; offset := 0 |} in
  let w1 := snd (prepare cache_root url_digest E plain_request w) in
  let w2 := snd (fetch E plain_request 5 w1) in
  let w3 := snd (restart E f resp 5 w2) in
  let out := downloadFile cache_root url_digest E plain_request w in
  fst (prepare cache_root url_digest E plain_request w) = Ok (f, 5) /\
  fst (fetch E plain_request 5 w1) = Ok resp /\
  StatusCode resp = StatusRequestedRangeNotSatisfiable /\
  fst (restart E f resp 5 w2) = Ok 0 /\
  files w3 !! downloading_path = Some [] /\
  check_status resp w3 = (Err (New "unexpected status code: 416"), w3) /\
  out = (Err (New "unexpected status code: 416"), w3) /\
  List.filter is_write (log (snd out)) = [] /\
  log (snd out)
  = [EvMkdirAll "/home/user/.cache/colima/caches";
     EvHTTP {| Method := "GET"; ReqURL := url;
               RangeHeader := Some "bytes=5-" |};
     EvTruncate downloading_path 0].
Proof. vm_compute. repeat split. Qed.

(** C6 on an explicit input: a local path with a checksum reference. *)
Lemma C6_local_path_short_circuit_witness :
  let E := env (answer 200 4 [payload 4]) "4" in
  let out := DownloadToGuest cache_root url_digest E local_request
               "/tmp/disk.img" (partial_world 5) in
  HasPrefix_slash (URL local_request) = true /\
  fst out = Ok tt /\
  files (snd out) = files (partial_world 5) /\
  log (snd out)
  = [EvGuestRun ["cp"; "/var/lib/images/disk.img"; "/tmp/disk.img"]].
Proof.
  intros E out. split; [reflexivity |].
  destruct (C6_local_path_short_circuit cache_root url_digest E local_request
              "/tmp/disk.img" (partial_world 5) eq_refl)
    as (Hres & Hfiles & Hlog & _).
  split; [exact Hres |]. split; [exact Hfiles | exact Hlog].
Defined.

(** C10 on an explicit input: with and without the checksum reference. *)
Lemma C10_local_path_ignores_checksum_witness :
  let E := env (answer 200 4 [payload 4]) "5" in
  HasPrefix_slash "/var/lib/images/disk.img" = true /\
  DownloadToGuest cache_root url_digest E local_request "/tmp/disk.img"
    empty_world
  = DownloadToGuest cache_root url_digest E
      {| URL := "/var/lib/images/disk.img"; SHA := None |} "/tmp/disk.img"
      empty_world.
Proof.
  intros E. split; [reflexivity |].
  exact (proj1 (C10_local_path_ignores_checksum cache_root url_digest E
                  "/var/lib/images/disk.img"
                  (Some {| checksum_resource := "SHA256SUMS" |}) None
                  "/tmp/disk.img" empty_world eq_refl)).
Defined.

(** C7 on an explicit input: a first attempt is quarantined, and the
    next one starts from an empty file. *)
Lemma C7_quarantine_invariant_witness :
  let E := env (answer 200 4 [payload 2; payload 2]) "5" in
  let sha := {| checksum_resource := "SHA256SUMS" |} in
  let w1 := snd (stream cache_root url_digest E checked_request empty_world) in
  let w' := snd (downloadFile cache_root url_digest E checked_request
                   empty_world) in
  let verr := New "checksum mismatch: expected 5, got 4" in
  (SHA checked_request = Some sha /\
   stream cache_root url_digest E checked_request empty_world = (Ok tt, w1) /\
   validate E sha url downloading_path (contents w1 downloading_path)
   = Some verr /\
   rename_fault E downloading_path (downloading_path +:+ ".invalid") = None) /\
  files w' !! (downloading_path +:+ ".invalid") = Some (payload 4) /\
  hasCache cache_root url_digest url w' = false /\
  fst (prepare cache_root url_digest E plain_request w')
  = Ok ({| Name := downloading_path; offset := 0 |}, 0).
Proof.
  intros E sha w1 w' verr.
  assert (Hs : stream cache_root url_digest E checked_request empty_world
               = (Ok tt, w1)) by (vm_compute; reflexivity).
  assert (Hv : validate E sha url downloading_path
                 (contents w1 downloading_path) = Some verr)
    by (vm_compute; reflexivity).
  split.
  { split; [reflexivity |]. split; [exact Hs |].
    split; [exact Hv | reflexivity]. }
  destruct (C7_quarantine_invariant cache_root url_digest E checked_request
              sha empty_world w1 verr eq_refl Hs Hv eq_refl)
    as (Hq & _ & _ & Hh & Hnext).
  split; [exact Hq |]. split; [exact Hh |].
  destruct (prepare cache_root url_digest E plain_request w')
    as [[[f L]|e] w2] eqn:Hp.
  - destruct (Hnext E plain_request f L w2 eq_refl Hp) as (-> & -> & _).
    reflexivity.
  - vm_compute in Hp. discriminate Hp.
Defined.

(** C9 on an explicit input, where the sum is in range. *)
Lemma C9_progress_write_total_exact_witness :
  let E := env (answer 200 4 [payload 4]) "4" in
  let p := newProgress 10 0 in
  (MinInt64 <= Current p /\ Current p + len (payload 3) <= MaxInt64) /\
  Current (fst (fst (Write E p (payload 3) empty_world))) = 3.
Proof.
  intros E p.
  assert (Hlo : MinInt64 <= Current p) by (vm_compute; discriminate).
  assert (Hhi : Current p + len (payload 3) <= MaxInt64)
    by (vm_compute; discriminate).
  split; [split; assumption |].
  exact (proj2 (proj2 (proj2 (proj2 (C9_progress_write_total_exact
           E p (payload 3) empty_world)))) Hlo Hhi).
Defined.

(** Beyond the largest [int64] the counter wraps, as [+=] does in Go. *)
Example Write_wraps_at_MaxInt64 :
  let E := env (answer 200 4 [payload 4]) "4" in
  let p := newProgress 0 MaxInt64 in
  Current (fst (fst (Write E p (payload 1) empty_world))) = MinInt64.
Proof. reflexivity. Qed.

(** The throttle: a write 300 ms after a report prints nothing, and
    counts all the same. *)
Example Write_throttled :
  let E := env (answer 200 4 [payload 4]) "4" in
  let first := Write E (newProgress 8 0) (payload 2) empty_world in
  let second := Write E (fst (fst first)) (payload 2) (snd first) in
  log (snd first) = [EvPrint (carriage_return +:+ "downloading ... 25.00% ")] /\
  log (snd second) = log (snd first) /\
  snd (fst second) = (2, None) /\
  Current (fst (fst second)) = 4.
Proof. vm_compute. repeat split. Qed.

(** *** The percentage and the total of the meter *)

Lemma Progress_blank (current total : Z) :
  total <= 0 -> terminal.Progress current total = "".
Proof.
  intros H. unfold terminal.Progress.
  destruct (total <=? 0) eqn:Ht; [reflexivity | lia].
Qed.

Lemma Progress_not_blank (current total : Z) :
  0 < total -> terminal.Progress current total <> "".
Proof.
  intros H. unfold terminal.Progress.
  destruct (total <=? 0) eqn:Ht; [lia |].
  intros Heq. apply (f_equal String.length) in Heq.
  rewrite length_append in Heq. simpl in Heq. lia.
Qed.

(** C5 on the failing input: five bytes of an earlier attempt are in the
    in-progress file and the origin ignores the range and answers 200
    with the ten bytes of the full resource. The cursor goes to the start
    of the file and the ten bytes are committed, but the meter is built
    with total [10 + 5 = 15] and current [5]: the partial length is added
    to the content length, and after the first five bytes the terminal
    reads 66.67%. *)
Theorem C5_full_response_total_adds_partial_length :
  let resp := answer 200 10 [payload 5; payload 5] in
  let E := env resp "10" in
  let w := partial_world 5 in
  let f := {| Name := downloading_path; offset := 0 |} in
  let out := downloadFile cache_root url_digest E plain_request w in
  let w1 := snd (prepare cache_root url_digest E plain_request w) in
  let w2 := snd (fetch E plain_request 5 w1) in
  fst (prepare cache_root url_digest E plain_request w) = Ok (f, 5) /\
  fst (fetch E plain_request 5 w1) = Ok resp /\
  restart E f resp 5 w2 = (Ok 5, w2) /\
  check_status resp w2 = (Ok tt, w2) /\
  position E f resp w2 = (Ok f, w2) /\
  transfer_meter resp 5
  = {| Total := 15; Current := 5; lastReport := None |} /\
  Total (transfer_meter resp 5) <> ContentLength resp /\
  fst out = Ok tt /\
  files (snd out) !! committed_path = Some (payload 10) /\
  List.filter (fun ev => negb (is_write ev)) (log (snd out))
  = [EvMkdirAll "/home/user/.cache/colima/caches";
     EvHTTP {| Method := "GET"; ReqURL := url;
               RangeHeader := Some "bytes=5-" |};
     EvPrint (carriage_return +:+ "downloading ... 66.67% ");
     EvRename downloading_path committed_path].
Proof. vm_compute. repeat split. intros H; discriminate H. Qed.

(** C8 on the failing input: a hundred bytes of an earlier attempt are
    in the in-progress file and the origin answers 206 without declaring
    a length ([ContentLength = -1]). The meter is built with total
    [-1 + 100 = 99], which is positive, and the terminal shows a
    percentage, 103.03%, for a transfer of unknown length. *)
Theorem C8_unknown_length_resumed_shows_percentage :
  let resp := answer 206 (-1) [payload 2] in
  let E := env resp "102" in
  let w := partial_world 100 in
  let out := downloadFile cache_root url_digest E plain_request w in
  ContentLength resp = -1 /\
  fst (prepare cache_root url_digest E plain_request w)
  = Ok ({| Name := downloading_path; offset := 0 |}, 100) /\
  transfer_meter resp 100
  = {| Total := 99; Current := 100; lastReport := None |} /\
  terminal.Progress 102 99 = "103.03%" /\
  fst out = Ok tt /\
  List.filter (fun ev => negb (is_write ev)) (log (snd out))
  = [EvMkdirAll "/home/user/.cache/colima/caches";
     EvHTTP {| Method := "GET"; ReqURL := url;
               RangeHeader := Some "bytes=100-" |};
     EvPrint (carriage_return +:+ "downloading ... 103.03% ");
     EvRename downloading_path committed_path].
Proof. vm_compute. repeat split. Qed.

(** With no partial file the same origin gives total [-1] and a blank
    percentage. *)
Example unknown_length_fresh_is_blank :
  let resp := answer 200 (-1) [payload 2] in
  let E := env resp "2" in
  let out := downloadFile cache_root url_digest E plain_request empty_world in
  Total (transfer_meter resp 0) = -1 /\
  List.filter (fun ev => negb (is_write ev)) (log (snd out))
  = [EvMkdirAll "/home/user/.cache/colima/caches";
     EvCreate downloading_path;
     EvHTTP {| Method := "GET"; ReqURL := url; RangeHeader := None |};
     EvPrint (carriage_return +:+ "downloading ...  ");
     EvRename downloading_path committed_path].
Proof. vm_compute. repeat split. Qed.

(** ** Further properties on explicit inputs *)

(** X1 on an explicit input: three bytes on disk, 206 with two more. *)
Lemma resume_appends_body_witness :
  let resp := answer 206 2 [fresh 1; fresh 1] in
  let E := env resp "5" in
  let w := partial_world 3 in
  let w' := snd (downloadFile cache_root url_digest E plain_request w) in
  (downloadFile cache_root url_digest E plain_request w = (Ok tt, w') /\
   client_do E {| Method := "GET"; ReqURL := url;
                  RangeHeader := Some "bytes=3-" |} = Ok resp /\
   StatusCode resp = StatusPartialContent) /\
  files w' !! committed_path = Some (payload 3 ++ fresh 2) /\
  files w' !! downloading_path = None.
Proof.
  intros resp E w w'.
  assert (Hd : downloadFile cache_root url_digest E plain_request w
               = (Ok tt, w')) by (vm_compute; reflexivity).
  split; [split; [exact Hd | split; reflexivity] |].
  exact (resume_appends_body cache_root url_digest E plain_request w w' resp
           Hd eq_refl eq_refl).
Defined.

(** X2 on an explicit input: five bytes on disk, 200 with two bytes. *)
Lemma full_response_overwrites_from_start_witness :
  let resp := answer 200 2 [fresh 2] in
  let E := env resp "5" in
  let w := partial_world 5 in
  let w' := snd (downloadFile cache_root url_digest E plain_request w) in
  (downloadFile cache_root url_digest E plain_request w = (Ok tt, w') /\
   client_do E {| Method := "GET"; ReqURL := url;
                  RangeHeader := Some "bytes=5-" |} = Ok resp /\
   StatusCode resp <> StatusPartialContent) /\
  files w' !! committed_path = Some (fresh 2 ++ payload 3).
Proof.
  intros resp E w w'.
  assert (Hd : downloadFile cache_root url_digest E plain_request w
               = (Ok tt, w')) by (vm_compute; reflexivity).
  assert (Hst : StatusCode resp <> StatusPartialContent)
    by (vm_compute; intros H; discriminate H).
  split; [split; [exact Hd | split; [reflexivity | exact Hst]] |].
  exact (proj1 (full_response_overwrites_from_start cache_root url_digest E
                  plain_request w w' resp Hd eq_refl Hst)).
Defined.

(** X3 on an explicit input: a body that breaks off after two of four
    bytes of a 206. *)
Lemma failed_attempt_keeps_partial_file_witness :
  let resp := broken (answer 206 4 [fresh 2]) in
  let E := env resp "7" in
  let w := partial_world 3 in
  let out := downloadFile cache_root url_digest E plain_request w in
  out = (Err (Wrap "error writing to file" (New "unexpected EOF")), snd out)
  /\ (3 <= length (contents (snd out) downloading_path))%nat.
Proof.
  intros resp E w out.
  assert (Hd : out = (Err (Wrap "error writing to file"
                             (New "unexpected EOF")), snd out))
    by (vm_compute; reflexivity).
  split; [exact Hd |].
  destruct (failed_attempt_keeps_partial_file cache_root url_digest E
              plain_request w (snd out) _ Hd)
    as [(resp' & Hdo & H416) | [(sha & verr & Hsha & _) | [Hlen _]]].
  - simpl in Hdo. inversion Hdo as [Hr]. rewrite <- Hr in H416.
    vm_compute in H416. discriminate H416.
  - vm_compute in Hsha. discriminate Hsha.
  - exact Hlen.
Defined.

(** X4 on an explicit input: an unrelated file is left alone and the
    one request is recorded. *)
Lemma attempt_footprint_witness :
  let E := env (answer 200 4 [payload 4]) "4" in
  let out := downloadFile cache_root url_digest E plain_request
               (partial_world 0) in
  fst out = Ok tt /\
  files (snd out) !! "/etc/hosts" = None /\
  exists evs, log (snd out) = evs /\ transfers evs = 1%nat.
Proof.
  intros E out.
  assert (Hok : fst out = Ok tt) by (vm_compute; reflexivity).
  destruct (attempt_footprint cache_root url_digest E plain_request
              (partial_world 0)) as (F & evs & L & _ & _ & _ & T).
  split; [exact Hok |]. split.
  - apply (F "/etc/hosts"); vm_compute; intros H; discriminate H.
  - exists evs. split; [exact L | exact (T Hok)].
Defined.

(** X5 on an explicit input: five bytes on disk and a 503. *)
Lemma unexpected_status_leaves_file_witness :
  let resp := answer 503 0 [payload 9] in
  let E := env resp "4" in
  let out := downloadFile cache_root url_digest E plain_request
               (partial_world 5) in
  (client_do E {| Method := "GET"; ReqURL := url;
                  RangeHeader := Some "bytes=5-" |} = Ok resp /\
   (StatusCode resp < 200 \/ 300 <= StatusCode resp) /\
   StatusCode resp <> StatusRequestedRangeNotSatisfiable) /\
  fst out = Err (New "unexpected status code: 503") /\
  files (snd out) !! downloading_path = Some (payload 5).
Proof.
  intros resp E out.
  assert (Hst : StatusCode resp < 200 \/ 300 <= StatusCode resp)
    by (right; vm_compute; discriminate).
  assert (H416 : StatusCode resp <> StatusRequestedRangeNotSatisfiable)
    by (vm_compute; intros H; discriminate H).
  split; [split; [reflexivity | split; [exact Hst | exact H416]] |].
  destruct (unexpected_status_leaves_file cache_root url_digest E
              plain_request (partial_world 5) resp
              eq_refl eq_refl eq_refl eq_refl eq_refl Hst H416)
    as (Hres & Hfile & _).
  split; [exact Hres | exact Hfile].
Defined.


(** X7 on an explicit input: a miss that succeeds. *)
Lemma Download_returns_committed_file_witness :
  let E := env (answer 200 4 [payload 4]) "4" in
  let out := Download cache_root url_digest E plain_request empty_world in
  out = (Ok committed_path, snd out) /\
  is_Some (files (snd out) !! committed_path) /\
  files (snd out) !! downloading_path = None.
Proof.
  intros E out.
  assert (Hd : out = (Ok committed_path, snd out)) by (vm_compute; reflexivity).
  split; [exact Hd |].
  destruct (Download_returns_committed_file cache_root url_digest E
              plain_request empty_world committed_path (snd out) Hd)
    as (_ & Hsome & _ & Hdl).
  split; [exact Hsome | exact (Hdl eq_refl)].
Defined.

(** X8 on an explicit input: the origin cannot be reached. *)
Lemma Download_failure_witness :
  let out := Download cache_root url_digest offline plain_request
               empty_world in
  let e := Wrap "error downloading 'https://example.test/file.bin'"
             (Wrap "error during download"
                (New "dial tcp: connection refused")) in
  out = (Err e, snd out) /\
  hasCache cache_root url_digest url (snd out) = false.
Proof.
  intros out e.
  assert (Hd : out = (Err e, snd out)) by (vm_compute; reflexivity).
  split; [exact Hd |].
  exact (proj1 (proj2 (Download_failure cache_root url_digest offline
                         plain_request empty_world e (snd out) Hd))).
Defined.

(** X9 on an explicit input: a download that succeeds, then the copy. *)
Lemma DownloadToGuest_remote_witness :
  let E := env (answer 200 4 [payload 4]) "4" in
  let out := DownloadToGuest cache_root url_digest E plain_request
               "/tmp/file.bin" empty_world in
  HasPrefix_slash (URL plain_request) = false /\
  exists evs,
    log (snd out) = evs /\
    List.filter is_guest_run evs
    = [EvGuestRun ["cp"; committed_path; "/tmp/file.bin"]].
Proof.
  intros E out. split; [reflexivity |].
  destruct (DownloadToGuest_remote cache_root url_digest E plain_request
              "/tmp/file.bin" empty_world eq_refl) as (evs & L & Hm).
  exists evs. split; [exact L |].
  assert (Hok : fst (Download cache_root url_digest E plain_request
                       empty_world) = Ok committed_path)
    by (vm_compute; reflexivity).
  rewrite Hok in Hm. destruct Hm as (_ & _ & _ & Hg). exact Hg.
Defined.

(** X11 on an explicit input: three writes, 300 ms apart. *)
Lemma Write_each_counts_witness :
  let E := env (answer 200 6 []) "6" in
  let p := newProgress 6 0 in
  MinInt64 <= Current p <= MaxInt64 /\
  Current (fst (Write_each E p [payload 1; payload 2; payload 3] empty_world))
  = 6.
Proof.
  intros E p.
  assert (Hp : MinInt64 <= Current p <= MaxInt64)
    by (split; vm_compute; discriminate).
  split; [exact Hp |].
  exact (proj1 (Write_each_counts E [payload 1; payload 2; payload 3] p
                  empty_world Hp)).
Defined.

(** X13 on explicit inputs. *)
Lemma Progress_blank_iff_witness :
  (- 1 <= 0 /\ 0 < 99) /\
  terminal.Progress 0 (- 1) = "" /\
  exists digits, terminal.Progress 102 99 = digits +:+ "%".
Proof.
  assert (H1 : - 1 <= 0) by lia. assert (H2 : 0 < 99) by lia.
  split; [split; assumption |]. split.
  - exact (proj2 (proj1 (Progress_blank_iff 0 (- 1))) H1).
  - exact (proj2 (Progress_blank_iff 102 99) H2).
Defined.

(** X14 on an explicit input: a thousand bytes of a thousand. *)
Lemma Progress_endpoints_witness :
  0 < 1000 /\
  terminal.Progress 0 1000 = "0.00%" /\
  terminal.Progress 1000 1000 = "100.00%".
Proof.
  assert (H : 0 < 1000) by lia.
  split; [exact H | exact (Progress_endpoints 1000 H)].
Defined.

(** X15 on an explicit input: the cache directory cannot be made. *)
Lemma failure_before_request_witness :
  let e := Wrap "error preparing cache dir"
             (New "mkdir /home/user/.cache: read-only file system") in
  let out := downloadFile cache_root url_digest read_only plain_request
               (partial_world 5) in
  fst out = Err e /\
  contents (snd out) downloading_path = payload 5.
Proof.
  intros e out.
  destruct (failure_before_request cache_root url_digest read_only
              plain_request (partial_world 5) e eq_refl)
    as (Hres & Hc & _).
  split; [exact Hres | exact Hc].
Defined.

(** X16 on an explicit input: the origin cannot be reached. *)
Lemma transport_failure_leaves_file_witness :
  let out := downloadFile cache_root url_digest offline plain_request
               (partial_world 5) in
  client_do offline {| Method := "GET"; ReqURL := url;
                       RangeHeader := Some "bytes=5-" |}
  = Err (New "dial tcp: connection refused") /\
  fst out = Err (Wrap "error during download"
                   (New "dial tcp: connection refused")) /\
  files (snd out) !! downloading_path = Some (payload 5).
Proof.
  intros out. split; [reflexivity |].
  destruct (transport_failure_leaves_file cache_root url_digest offline
              plain_request (partial_world 5)
              (New "dial tcp: connection refused")
              eq_refl eq_refl eq_refl eq_refl eq_refl)
    as (Hres & Hfile & _).
  split; [exact Hres | exact Hfile].
Defined.

(** X17 on an explicit input: a 206 whose body breaks off after two
    bytes. *)
Lemma broken_body_keeps_received_bytes_witness :
  let resp := broken (answer 206 4 [fresh 2]) in
  let E := env resp "7" in
  let out := downloadFile cache_root url_digest E plain_request
               (partial_world 3) in
  (client_do E {| Method := "GET"; ReqURL := url;
                  RangeHeader := Some "bytes=3-" |} = Ok resp /\
   200 <= StatusCode resp < 300 /\
   BodyErr resp = Some (New "unexpected EOF")) /\
  fst out = Err (Wrap "error writing to file" (New "unexpected EOF")) /\
  files (snd out) !! downloading_path = Some (payload 3 ++ fresh 2).
Proof.
  intros resp E out.
  assert (Hst : 200 <= StatusCode resp < 300)
    by (split; vm_compute; [discriminate | reflexivity]).
  split; [split; [reflexivity | split; [exact Hst | reflexivity]] |].
  destruct (broken_body_keeps_received_bytes cache_root url_digest E
              plain_request (partial_world 3) resp (New "unexpected EOF")
              eq_refl eq_refl eq_refl eq_refl eq_refl (fun _ => eq_refl)
              eq_refl Hst eq_refl)
    as (Hres & Hfile & _).
  split; [exact Hres | exact Hfile].
Defined.
